(** * LinkedIn Easy Apply script: a shallow embedding and its properties

    Source: [Henry_Task/easy_apply/find_linkedin_easy_apply.py].

    The script registers five actions on a browser-automation controller
    ([save_jobs], [read_jobs], [linkedin_login], [read_cv], [upload_cv]),
    defines a credential loader and starts two agents.  Python values are
    modelled as follows:
    - [str] is [string]; [Optional[str]] is [option string];
    - [int] is [Z], printed in decimal by stdpp's [pretty];
    - [os.environ] is a [gmap string string];
    - statements that read or change the process state run in the monad
      [M S], a state monad over [S] whose computations either return a
      value or raise a Python exception;
    - the browser, an external collaborator, is an interface
      ([BrowserContext]) of state-passing methods, so every theorem about
      an asynchronous action holds for every implementation of it. *)

From Stdlib Require Import Ascii String Floats.SpecFloat.
From stdpp Require Import gmap strings list pretty.

Open Scope string_scope.

(** ** Characters the script and the csv module depend on *)

Definition dquote : ascii := "034"%char.
Definition comma : ascii := ","%char.
Definition CR : ascii := "013"%char.
Definition LF : ascii := "010"%char.

(** ** Exceptions and the action monad *)

(** The classes of exceptions the script raises or lets through.
    [NonException] stands for a [BaseException] that is not an
    [Exception] (cancellation, keyboard interrupt): [except Exception]
    does not catch it. *)
Inductive pyexc : Type :=
| ValueError (msg : string)
| FileNotFoundError (msg : string)
| AttributeError (msg : string)
| UnicodeDecodeError (msg : string)
| OtherException (msg : string)
| NonException (msg : string).

(** [str(e)] *)
Definition str_exc (e : pyexc) : string :=
  match e with
  | ValueError m | FileNotFoundError m | AttributeError m
  | UnicodeDecodeError m | OtherException m | NonException m => m
  end.

(** [isinstance(e, Exception)] *)
Definition is_Exception (e : pyexc) : bool :=
  match e with
  | NonException _ => false
  | _ => true
  end.

Inductive outcome (A : Type) : Type :=
| Returns (a : A)
| Raises (e : pyexc).
Arguments Returns {A} a.
Arguments Raises {A} e.

Definition M (S A : Type) : Type := S -> outcome A * S.

Global Instance M_ret {S} : MRet (M S) := λ A a s, (Returns a, s).

Global Instance M_bind {S} : MBind (M S) := λ A B f m s,
  match m s with
  | (Returns a, s') => f a s'
  | (Raises e, s') => (Raises e, s')
  end.

Definition raise {S A} (e : pyexc) : M S A := λ s, (Raises e, s).

(** [try: body  except Exception as e: handler(e)] *)
Definition try_except {S A} (body : M S A) (handler : pyexc -> M S A) : M S A :=
  λ s,
  match body s with
  | (Returns a, s') => (Returns a, s')
  | (Raises e, s') =>
      if is_Exception e then handler e s' else (Raises e, s')
  end.

Definition gets {S A} (f : S -> A) : M S A := λ s, (Returns (f s), s).
Definition modify {S} (f : S -> S) : M S () := λ s, (Returns (), f s).

(** A computation on the first (second) component of a paired state. *)
Definition on_fst {S T A} (m : M S A) : M (S * T) A := λ st,
  let '(r, s') := m st.1 in (r, (s', st.2)).
Definition on_snd {S T A} (m : M T A) : M (S * T) A := λ st,
  let '(r, t') := m st.2 in (r, (st.1, t')).

(** ** Action results *)

(** Modelled from the spec: the [ActionResult] class of the [browser_use]
    package, imported by the script but not part of the source file.  The
    spec's data model gives it an optional extracted content, an optional
    error and a boolean include-in-memory flag; a keyword argument left
    out of the constructor call is [None], and the flag is then false
    (the spec: an error result has the memory-retention flag false). *)
Record ActionResult : Type := mkActionResult {
  extracted_content : option string;
  error : option string;
  include_in_memory : bool
}.

(** [ActionResult(extracted_content=c, include_in_memory=b)] *)
Definition result_content (c : string) (b : bool) : ActionResult :=
  {| extracted_content := Some c; error := None; include_in_memory := b |}.

(** [ActionResult(error=m)] *)
Definition result_error (m : string) : ActionResult :=
  {| extracted_content := None; error := Some m; include_in_memory := false |}.

(** ** The process state *)

Inductive level : Type := LvDebug | LvInfo | LvError.

(** One page of the resume: what [page.extract_text()] does. *)
Record Page : Type := { extract_text : outcome (option string) }.

(** What the script starts and builds, in order. *)
Inductive event : Type :=
| EvController
| EvAction (description : string)
| EvBrowser (disable_security : bool)
| EvChatModel (model : string)
| EvAgent (task : string)
| EvRunAgents (n : nat).

(** The part of the process and of its working directory the script
    touches.  [environ] is [os.environ]; [dotenv] holds the bindings of
    the [.env] file ([∅] when there is none); [cwd] is the working
    directory; [cv_file] is the resume at [Path.cwd() / CV_NAME] ([None]
    when it does not exist, otherwise its pages); [jobs_csv] holds the
    bytes of [jobs.csv] ([None] when it does not exist); [log] collects the
    records handed to the module logger; [events] the components built. *)
Record World : Type := mkWorld {
  environ : gmap string string;
  dotenv : gmap string string;
  cwd : string;
  cv_file : option (list Page);
  jobs_csv : option string;
  log : list (level * string);
  events : list event
}.

Definition set_environ (f : gmap string string -> gmap string string) (w : World) : World :=
  mkWorld (f (environ w)) (dotenv w) (cwd w) (cv_file w) (jobs_csv w) (log w) (events w).
Definition set_jobs_csv (c : option string) (w : World) : World :=
  mkWorld (environ w) (dotenv w) (cwd w) (cv_file w) c (log w) (events w).
Definition add_log (l : level) (m : string) (w : World) : World :=
  mkWorld (environ w) (dotenv w) (cwd w) (cv_file w) (jobs_csv w) (log w ++ [(l, m)]) (events w).
Definition add_event (e : event) (w : World) : World :=
  mkWorld (environ w) (dotenv w) (cwd w) (cv_file w) (jobs_csv w) (log w) (events w ++ [e]).

(** [logger.info], [logger.error], [logger.debug] *)
Definition logger_info (m : string) : M World () := modify (add_log LvInfo m).
Definition logger_error (m : string) : M World () := modify (add_log LvError m).
Definition logger_debug (m : string) : M World () := modify (add_log LvDebug m).

(** [os.getenv(name)] *)
Definition getenv (name : string) : M World (option string) :=
  gets (λ w, environ w !! name).

(** Truth value of an [Optional[str]]: [None] and [''] are false. *)
Definition truthy (v : option string) : bool :=
  match v with
  | None | Some "" => false
  | Some _ => true
  end.

(** ** [get_linkedin_credentials] (lines 29-35) *)

Definition credentials_error : string :=
  "linkedin_email 或 linkedin_password 未設定，請檢查環境變數。".

(** [pydantic.SecretStr]: a wrapper around a string that gives it back
    only through [get_secret_value()]. *)
Record SecretStr : Type := mkSecretStr { get_secret_value : string }.

Definition get_linkedin_credentials : M World (string * SecretStr) :=
  email ← getenv "linkedin_email";
  password ← getenv "linkedin_password";
  if negb (truthy email) || negb (truthy password)
  then raise (ValueError credentials_error)
  else mret (default "" email, mkSecretStr (default "" password)).

(** ** Text *)

(** A [str] is kept as the bytes of its UTF-8 encoding, so [len] counts
    the bytes that start a code point (all but the [10xxxxxx] ones). *)
Definition starts_code_point (c : ascii) : bool :=
  negb (N.eqb (N.land (N_of_ascii c) 192) 128).

Fixpoint py_len (s : string) : nat :=
  match s with
  | "" => 0
  | String c s' => (if starts_code_point c then 1 else 0) + py_len s'
  end.

(** [x or ''] for [x : Optional[str]] *)
Definition or_empty (x : option string) : string :=
  if truthy x then default "" x else "".

(** Which byte strings are the UTF-8 encoding of a text.  The state says
    what the next byte must be: the start of a character ([Utf8Start]),
    one of [more + 1] continuation bytes ([Utf8Tail]), or the second byte
    of a character whose first byte restricts it (no overlong form, no
    surrogate, nothing above U+10FFFF). *)
Inductive utf8_state : Type :=
| Utf8Start
| Utf8Tail (more : nat)
| Utf8AfterE0
| Utf8AfterED
| Utf8AfterF0
| Utf8AfterF4.

Definition between (lo hi n : N) : bool := N.leb lo n && N.leb n hi.

(** The state after the first byte of a character, [None] when the byte
    cannot start one. *)
Definition utf8_lead (n : N) : option utf8_state :=
  if N.ltb n 128 then Some Utf8Start
  else if between 194 223 n then Some (Utf8Tail 0)
  else if N.eqb n 224 then Some Utf8AfterE0
  else if between 225 236 n || between 238 239 n then Some (Utf8Tail 1)
  else if N.eqb n 237 then Some Utf8AfterED
  else if N.eqb n 240 then Some Utf8AfterF0
  else if between 241 243 n then Some (Utf8Tail 2)
  else if N.eqb n 244 then Some Utf8AfterF4
  else None.

(** The state after a byte that continues a character. *)
Definition utf8_continue (st : utf8_state) (n : N) : option utf8_state :=
  match st with
  | Utf8Start => None
  | Utf8Tail more =>
      if between 128 191 n
      then Some (match more with O => Utf8Start | S m => Utf8Tail m end)
      else None
  | Utf8AfterE0 => if between 160 191 n then Some (Utf8Tail 0) else None
  | Utf8AfterED => if between 128 159 n then Some (Utf8Tail 0) else None
  | Utf8AfterF0 => if between 144 191 n then Some (Utf8Tail 1) else None
  | Utf8AfterF4 => if between 128 143 n then Some (Utf8Tail 1) else None
  end.

Definition utf8_next (st : utf8_state) (c : ascii) : option utf8_state :=
  match st with
  | Utf8Start => utf8_lead (N_of_ascii c)
  | _ => utf8_continue st (N_of_ascii c)
  end.

Fixpoint utf8_ok (st : utf8_state) (s : string) : bool :=
  match s with
  | "" => match st with Utf8Start => true | _ => false end
  | String c s' =>
      match utf8_next st c with
      | Some st' => utf8_ok st' s'
      | None => false
      end
  end.

Definition utf8_valid (s : string) : bool := utf8_ok Utf8Start s.

(** ** The [Job] parameter model (lines 56-62)

    The fields in the order of the class.  A [str] being a text, the
    bytes that stand for it are valid UTF-8: [job_text] records it. *)
Record Job : Type := mkJob {
  title : string;
  link : string;
  company : string;
  fit_score : spec_float;
  location : option string;
  salary : option string;
  job_text :
    forallb utf8_valid
      [title; link; company; default "" location; default "" salary] = true
}.

(** ** [csv.writer] with the default ([excel]) dialect

    The script calls [csv.writer(f).writerow(row)] without options:
    delimiter comma, quote character the double quote, [QUOTE_MINIMAL], doubled quotes,
    line terminator CR LF.  A field is quoted when it holds the delimiter,
    the quote character or a CR or LF; [None] is written as the empty
    field; a row made of one empty field is written as two quotes. *)

Definition csv_special (c : ascii) : bool :=
  Ascii.eqb c comma || Ascii.eqb c dquote || Ascii.eqb c CR || Ascii.eqb c LF.

Fixpoint has_special (s : string) : bool :=
  match s with
  | "" => false
  | String c s' => csv_special c || has_special s'
  end.

Fixpoint double_quotes (s : string) : string :=
  match s with
  | "" => ""
  | String c s' =>
      if Ascii.eqb c dquote then String c (String c (double_quotes s'))
      else String c (double_quotes s')
  end.

Definition quoted (s : string) : string :=
  String dquote (double_quotes s +:+ String dquote "").

Definition csv_field (s : string) : string :=
  if has_special s then quoted s else s.

Fixpoint csv_join (fields : list string) : string :=
  match fields with
  | [] => ""
  | [f] => csv_field f
  | f :: rest => csv_field f +:+ String comma (csv_join rest)
  end.

Definition csv_record (fields : list string) : string :=
  match fields with
  | [""] => quoted ""
  | _ => csv_join fields
  end.

Definition CRLF : string := String CR (String LF "").

Definition writerow (row : list (option string)) : string :=
  csv_record (default "" <$> row) +:+ CRLF.

(** ** [save_jobs] and [read_jobs] (lines 65-77) *)

(** [open('jobs.csv', 'a', newline='')] followed by writes: the text is
    put at the end of the file, which is created when absent; with
    [newline=''] no line ending is translated. *)
Definition append_jobs_csv (text : string) : M World () :=
  modify (λ w, set_jobs_csv (Some (default "" (jobs_csv w) +:+ text)) w).

Definition job_row (job : Job) : list (option string) :=
  [Some (title job); Some (company job); Some (link job); salary job; location job].

Definition save_jobs (job : Job) : M World string :=
  _ ← append_jobs_csv (writerow (job_row job));
  mret "Saved job to file".

(** Reading in text mode with the default [newline=None]: the bytes of
    the file are decoded, then CR LF and a lone CR both come back as LF.
    [pending_cr] says the previous character was a CR. *)
Fixpoint translate_newlines (pending_cr : bool) (s : string) : string :=
  match s with
  | "" => ""
  | String c s' =>
      if Ascii.eqb c CR then String LF (translate_newlines true s')
      else if Ascii.eqb c LF && pending_cr then translate_newlines false s'
      else String c (translate_newlines false s')
  end.

Definition universal_newlines (s : string) : string := translate_newlines false s.

Definition read_jobs : M World string :=
  content ← gets jobs_csv;
  match content with
  | None =>
      raise (FileNotFoundError "[Errno 2] No such file or directory: 'jobs.csv'")
  | Some data =>
      if utf8_valid data then mret (universal_newlines data)
      else raise (UnicodeDecodeError "'utf-8' codec can't decode bytes of jobs.csv")
  end.

(** ** [read_cv] (lines 110-117) *)

(** The loop [for page in pdf.pages: text += page.extract_text() or ''] *)
Fixpoint read_pages (text : string) (pages : list Page) : outcome string :=
  match pages with
  | [] => Returns text
  | page :: rest =>
      match extract_text page with
      | Returns t => read_pages (text +:+ or_empty t) rest
      | Raises e => Raises e
      end
  end.

Definition of_outcome {S A} (r : outcome A) : M S A := λ s, (r, s).

Definition read_cv (CV : string) : M World ActionResult :=
  pdf ← gets cv_file;
  match pdf with
  | None =>
      raise (FileNotFoundError ("[Errno 2] No such file or directory: '" +:+ CV +:+ "'"))
  | Some pages =>
      text ← of_outcome (read_pages "" pages);
      _ ← logger_info ("Read cv with " +:+ pretty (py_len text) +:+ " characters");
      mret (result_content text true)
  end.

(** ** The browser interface

    [BrowserContext] and the objects it hands out belong to the
    automation framework.  [B] is the state of the browser, [Node] a DOM
    element of the enumerated page, [Handle] a located page element.
    Every awaited call may change the browser and may raise. *)
Class BrowserContext (B Node Handle : Type) : Type := {
  goto : string -> M B ();
  wait_for_selector : string -> M B (option Handle);
  wait_for_navigation : M B ();
  fill : Handle -> string -> M B ();
  click : Handle -> M B ();
  set_input_files : Handle -> string -> M B ();
  get_dom_element_by_index : Z -> M B (option Node);
  get_locate_element : Node -> M B (option Handle);
  get_file_upload_element : Node -> option Node
}.

Section Actions.
Context {B Node Handle : Type} `{!BrowserContext B Node Handle}.

(** A method called on the result of [wait_for_selector], which is
    [None] when the selector resolves to nothing. *)
Definition call_fill (el : option Handle) (text : string) : M B () :=
  match el with
  | None => raise (AttributeError "'NoneType' object has no attribute 'fill'")
  | Some h => fill h text
  end.

Definition call_click (el : option Handle) : M B () :=
  match el with
  | None => raise (AttributeError "'NoneType' object has no attribute 'click'")
  | Some h => click h
  end.

(** ** [linkedin_login] (lines 80-108) *)

Definition login_url : string := "https://www.linkedin.com/login".
Definition username_selector : string := "input#username".
Definition password_selector : string := "input#password".
Definition submit_selector : string :=
  "button[type=" +:+ String dquote ("submit" +:+ String dquote "]").

Definition login_success_msg : string := "Successfully logged in to LinkedIn".
Definition login_error_msg (e : pyexc) : string :=
  "Failed to login to LinkedIn: " +:+ str_exc e.

Definition linkedin_login (email password : string) : M (World * B) ActionResult :=
  try_except
    (_ ← on_snd (goto login_url);
     email_input ← on_snd (wait_for_selector username_selector);
     _ ← on_snd (call_fill email_input email);
     password_input ← on_snd (wait_for_selector password_selector);
     _ ← on_snd (call_fill password_input password);
     sign_in_button ← on_snd (wait_for_selector submit_selector);
     _ ← on_snd (call_click sign_in_button);
     _ ← on_snd wait_for_navigation;
     _ ← on_fst (logger_info login_success_msg);
     mret (result_content login_success_msg true))
    (λ e,
     _ ← on_fst (logger_error (login_error_msg e));
     mret (result_error (login_error_msg e))).

(** ** [upload_cv] (lines 123-149) *)

Definition no_element_msg (index : Z) : string :=
  "No element found at index " +:+ pretty index.
Definition no_upload_element_msg (index : Z) : string :=
  "No file upload element found at index " +:+ pretty index.
Definition upload_success_msg (path : string) (index : Z) : string :=
  "Successfully uploaded file " +:+ String dquote (path +:+ String dquote (" to index " +:+ pretty index)).
Definition upload_failure_msg (index : Z) : string :=
  "Failed to upload file to index " +:+ pretty index.

(** [CV] is built from [Path.cwd()], hence absolute, and [CV.absolute()]
    is [CV] itself. *)
Definition upload_cv (CV : string) (index : Z) : M (World * B) ActionResult :=
  let path := CV in
  dom_el ← on_snd (get_dom_element_by_index index);
  match dom_el with
  | None => mret (result_error (no_element_msg index))
  | Some dom_el =>
      match get_file_upload_element dom_el with
      | None =>
          _ ← on_fst (logger_info (no_upload_element_msg index));
          mret (result_error (no_upload_element_msg index))
      | Some file_upload_dom_el =>
          file_upload_el ← on_snd (get_locate_element file_upload_dom_el);
          match file_upload_el with
          | None =>
              _ ← on_fst (logger_info (no_upload_element_msg index));
              mret (result_error (no_upload_element_msg index))
          | Some file_upload_el =>
              try_except
                (_ ← on_snd (set_input_files file_upload_el path);
                 _ ← on_fst (logger_info (upload_success_msg path index));
                 mret (result_content (upload_success_msg path index) false))
                (λ e,
                 _ ← on_fst (logger_debug ("Error in set_input_files: " +:+ str_exc e));
                 mret (result_error (upload_failure_msg index)))
          end
      end
  end.

End Actions.

(** ** Module body and [main] (lines 38-54, 152-197) *)

Definition CV_NAME : string := "Hsu_Tse_Chun_s_CV_DS.pdf".

(** [Path.cwd() / name] on an absolute working directory *)
Definition path_join (dir name : string) : string :=
  if String.eqb dir "/" then dir +:+ name else dir +:+ "/" +:+ name.

(** [load_dotenv()]: the bindings of the [.env] file are added to the
    environment; a variable already set keeps its value. *)
Definition load_dotenv : M World () :=
  modify (λ w, set_environ (λ env, env ∪ dotenv w) w).

Definition emit (e : event) : M World () := modify (add_event e).

(** The descriptions under which the five actions are registered by the
    [@controller.action] decorators, in the order of the file. *)
Definition action_descriptions : list string :=
  ["Save jobs to file - with a score how well it fits to my profile";
   "Read jobs from file";
   "LinkedIn login action";
   "Read my cv for context to fill forms";
   "Upload cv to element - call this function to upload if element is not found, try with different index of the same upload element"].

Fixpoint register_actions (ds : list string) : M World () :=
  match ds with
  | [] => mret ()
  | d :: rest => _ ← emit (EvAction d); register_actions rest
  end.

(** The statements of the module, up to the entry-point guard; the value
    is the module constant [CV]. *)
Definition module_body : M World string :=
  _ ← load_dotenv;
  _ ← emit EvController;
  dir ← gets cwd;
  let CV := path_join dir CV_NAME in
  pdf ← gets cv_file;
  if negb (bool_decide (is_Some pdf))
  then raise (FileNotFoundError
         ("You need to set the path to your cv file in the CV variable. CV file not found at " +:+ CV))
  else
    _ ← register_actions action_descriptions;
    _ ← emit (EvBrowser true);
    mret CV.

Definition ground_task : string :=
  "You are a professional job finder. " +:+
  "1. Go to www.linkedin.com/login and use the LinkedIn login action with my credentials. " +:+
  "2. Read my cv with read_cv. " +:+
  "3. Find an internships and apply them and save them to a file. " +:+
  "4. need to upload my cv to the application form. " +:+
  "5. You can search at this role and apply all of them in the list." +:+
  "search at this role:".

Definition tasks : list string :=
  [ground_task +:+ String LF "" +:+ "data analyst intern";
   ground_task +:+ String LF "" +:+ "data scientist intern"].

(** [for task in tasks: agents.append(Agent(task=task, ...))] *)
Fixpoint build_agents (ts : list string) : M World (list string) :=
  match ts with
  | [] => mret []
  | task :: rest =>
      _ ← emit (EvAgent task);
      agents ← build_agents rest;
      mret (task :: agents)
  end.

(** [ChatOpenAI(model=..., temperature=0.0)]: the constructor of the
    client takes the API key from [OPENAI_API_KEY] (line 4 of the file:
    the variable must be in the environment) and raises when it is not
    set. *)
Definition chat_openai (model : string) : M World () :=
  key ← getenv "OPENAI_API_KEY";
  match key with
  | None =>
      raise (OtherException
        "The api_key client option must be set either by passing api_key to the client or by setting the OPENAI_API_KEY environment variable")
  | Some _ => emit (EvChatModel model)
  end.

(** [main] up to the start of the agents: what the agents then do, step
    by step, is decided by the language model and is not part of this
    development; [EvRunAgents] marks the point where they are started. *)
Definition main : M World () :=
  _ ← chat_openai "gpt-4o";
  agents ← build_agents tasks;
  emit (EvRunAgents (length agents)).

(** Running the file as a script. *)
Definition script : M World () :=
  _ ← module_body;
  main.

(** ** Reading a delimited text back

    The statements about rows need a reading of the store's text as rows
    of fields.  [csv_rows] is that reading, with the conventions of the
    writer above: fields are separated by commas, a field in double
    quotes may hold commas, line ends and doubled quotes, and a record
    ends at CR LF, LF or CR.  It is not part of the script. *)

Inductive dstate : Type :=
| RecordStart | FieldStart | Unquoted | Quoted | QuoteSeen | AfterCR.

Definition blank_record (st : dstate) : bool :=
  match st with RecordStart | AfterCR => true | _ => false end.

Definition at_field_start (st : dstate) : bool :=
  match st with RecordStart | AfterCR | FieldStart => true | _ => false end.

Definition close_record (st : dstate) (fld : string) (row : list string) : list string :=
  if blank_record st then [] else (row ++ [fld])%list.

Definition snoc (s : string) (c : ascii) : string := s +:+ String c "".

Fixpoint csv_rows_go (st : dstate) (fld : string) (row : list string) (s : string)
  : list (list string) :=
  match s with
  | "" => if blank_record st then [] else [(row ++ [fld])%list]
  | String c s' =>
      match st with
      | Quoted =>
          if Ascii.eqb c dquote then csv_rows_go QuoteSeen fld row s'
          else csv_rows_go Quoted (snoc fld c) row s'
      | _ =>
          if match st with AfterCR => Ascii.eqb c LF | _ => false end
          then csv_rows_go RecordStart "" [] s'
          else if Ascii.eqb c dquote && at_field_start st
          then csv_rows_go Quoted "" row s'
          else if Ascii.eqb c dquote && match st with QuoteSeen => true | _ => false end
          then csv_rows_go Quoted (snoc fld c) row s'
          else if Ascii.eqb c comma
          then csv_rows_go FieldStart "" (row ++ [fld])%list s'
          else if Ascii.eqb c LF
          then close_record st fld row :: csv_rows_go RecordStart "" [] s'
          else if Ascii.eqb c CR
          then close_record st fld row :: csv_rows_go AfterCR "" [] s'
          else csv_rows_go Unquoted (snoc fld c) row s'
      end
  end.

Definition csv_rows (s : string) : list (list string) :=
  csv_rows_go RecordStart "" [] s.

(** The five columns of a job's row, an absent value being the empty
    field. *)
Definition job_fields (job : Job) : list string :=
  [title job; company job; link job; default "" (salary job); default "" (location job)].

(** A piece of text holds exactly one row, made of the given fields. *)
Definition row_holds (text : string) (fields : list string) : Prop :=
  csv_rows text = [fields].

(** A job's row as it comes back from a text-mode read. *)
Definition read_row (job : Job) : string :=
  csv_record (universal_newlines <$> job_fields job) +:+ String LF "".

(** The store after [save_jobs(a)] then [save_jobs(b)], and what
    [read_jobs] returns from it. *)
Definition after_two_saves (a b : Job) (w : World) : World :=
  (save_jobs b (save_jobs a w).2).2.

Definition read_after_two_saves (a b : Job) (w : World) : outcome string :=
  (read_jobs (after_two_saves a b w)).1.

(** The round trip read with the fields unchanged: the text returned
    ends with a row holding the five fields of [a] followed by a row
    holding the five fields of [b]. *)
Definition reads_back_rows (a b : Job) (w : World) : Prop :=
  ∃ before row_a row_b,
    read_after_two_saves a b w = Returns (before +:+ row_a +:+ row_b)
    ∧ row_holds row_a (job_fields a)
    ∧ row_holds row_b (job_fields b).

Fixpoint has_cr (s : string) : bool :=
  match s with
  | "" => false
  | String c s' => Ascii.eqb c CR || has_cr s'
  end.

Definition set_fit_score (x : spec_float) (job : Job) : Job :=
  mkJob (title job) (link job) (company job) x (location job) (salary job)
        (job_text job).

(** The two line ends a row can carry: CR LF as written, LF as read. *)
Definition line_end (t : string) : Prop := t = CRLF ∨ t = String LF "".

Definition starts_lf (s : string) : bool :=
  match s with
  | String c _ => Ascii.eqb c LF
  | "" => false
  end.

(** The texts of the pages put end to end, a page without text counting
    for the empty string. *)
Definition concat_texts (texts : list (option string)) : string :=
  foldr String.append "" (default "" <$> texts).

(** The browser calls of the login action, in the order of the source:
    navigation, the two field fills, the submit click, the wait. *)
Definition login_steps `{!BrowserContext B Node Handle} (email password : string) : M B () :=
  _ ← goto login_url;
  email_input ← wait_for_selector username_selector;
  _ ← call_fill email_input email;
  password_input ← wait_for_selector password_selector;
  _ ← call_fill password_input password;
  sign_in_button ← wait_for_selector submit_selector;
  _ ← call_click sign_in_button;
  wait_for_navigation.

(** A run of [save_jobs] calls, and the text they write. *)
Definition save_all (jobs : list Job) (w : World) : World :=
  foldl (λ w job, (save_jobs job w).2) w jobs.

Definition rows_text (jobs : list Job) : string :=
  foldr (λ job text, writerow (job_row job) +:+ text) "" jobs.

(** The rows of a run of saves as a text-mode read returns them. *)
Definition read_rows_text (jobs : list Job) : string :=
  foldr (λ job text, read_row job +:+ text) "" jobs.

(** ** A recording browser

    A second implementation of the browser interface: every call
    succeeds and is written down with its arguments.  An element found
    by a selector is known by that selector, a DOM element by its index,
    and every DOM element is its own file-upload control. *)
Inductive rec_handle : Type :=
| BySelector (selector : string)
| ByIndex (index : Z).

Inductive call : Type :=
| CallGoto (url : string)
| CallWaitForSelector (selector : string)
| CallFill (h : rec_handle) (text : string)
| CallClick (h : rec_handle)
| CallWaitForNavigation
| CallGetDomElement (index : Z)
| CallLocate (index : Z)
| CallSetInputFiles (h : rec_handle) (path : string).

Definition record (c : call) : M (list call) () :=
  modify (λ calls, calls ++ [c])%list.

Definition rec_find (selector : string) : M (list call) (option rec_handle) :=
  _ ← record (CallWaitForSelector selector); mret (Some (BySelector selector)).

Definition rec_element (index : Z) : M (list call) (option Z) :=
  _ ← record (CallGetDomElement index); mret (Some index).

Definition rec_locate (index : Z) : M (list call) (option rec_handle) :=
  _ ← record (CallLocate index); mret (Some (ByIndex index)).

Global Instance rec_browser : BrowserContext (list call) Z rec_handle := {|
  goto url := record (CallGoto url);
  wait_for_selector := rec_find;
  wait_for_navigation := record CallWaitForNavigation;
  fill h text := record (CallFill h text);
  click h := record (CallClick h);
  set_input_files h path := record (CallSetInputFiles h path);
  get_dom_element_by_index := rec_element;
  get_locate_element := rec_locate;
  get_file_upload_element index := Some index
|}.

(** One character of the reading: the row it completes, if any, and the
    state after it. *)
Definition csv_step (st : dstate) (fld : string) (row : list string) (c : ascii)
  : option (list string) * (dstate * string * list string) :=
  match st with
  | Quoted =>
      if Ascii.eqb c dquote then (None, (QuoteSeen, fld, row))
      else (None, (Quoted, snoc fld c, row))
  | _ =>
      if match st with AfterCR => Ascii.eqb c LF | _ => false end
      then (None, (RecordStart, "", []))
      else if Ascii.eqb c dquote && at_field_start st
      then (None, (Quoted, "", row))
      else if Ascii.eqb c dquote && match st with QuoteSeen => true | _ => false end
      then (None, (Quoted, snoc fld c, row))
      else if Ascii.eqb c comma
      then (None, (FieldStart, "", (row ++ [fld])%list))
      else if Ascii.eqb c LF
      then (Some (close_record st fld row), (RecordStart, "", []))
      else if Ascii.eqb c CR
      then (Some (close_record st fld row), (AfterCR, "", []))
      else (None, (Unquoted, snoc fld c, row))
  end.

(** The rows completed within a text, and the state at its end. *)
Fixpoint csv_scan (st : dstate) (fld : string) (row : list string) (s : string)
  : list (list string) * (dstate * string * list string) :=
  match s with
  | "" => ([], (st, fld, row))
  | String c s' =>
      let '(done, (st', fld', row')) := csv_step st fld row c in
      let '(rows, final) := csv_scan st' fld' row' s' in
      ((option_list done ++ rows)%list, final)
  end.

(** A text ends a record when its reading stops between two records:
    it is empty, or its last line end lies outside quotes and nothing
    follows it. *)
Definition ends_record (text : string) : bool :=
  blank_record (csv_scan RecordStart "" [] text).2.1.1.

(** The statement that [save_jobs] adds one row to the rows of the
    store, whatever the store holds. *)
Definition appends_one_row (job : Job) (w : World) : Prop :=
  ∃ text, jobs_csv (save_jobs job w).2 = Some text
          ∧ csv_rows text
            = (csv_rows (default "" (jobs_csv w)) ++ [job_fields job])%list.

(** The statement that [linkedin_login] turns whatever is raised by a
    browser call into an error result. *)
Definition login_reports_every_exception `{!BrowserContext B Node Handle}
    (email password : string) (w : World) (b : B) : Prop :=
  ∀ e b', login_steps email password b = (Raises e, b') →
          (linkedin_login email password (w, b)).1
          = Returns (result_error (login_error_msg e)).

(** The statement that [upload_cv] returns one of the three results of
    the no-element, no-upload-element and success cases. *)
Definition upload_returns_one_of_three `{!BrowserContext B Node Handle}
    (CV : string) (index : Z) (w : World) (b : B) : Prop :=
  (upload_cv CV index (w, b)).1 = Returns (result_error (no_element_msg index))
  ∨ (upload_cv CV index (w, b)).1
    = Returns (result_error (no_upload_element_msg index))
  ∨ (upload_cv CV index (w, b)).1
    = Returns (result_content (upload_success_msg CV index) false).

(** The statement that [upload_cv] turns whatever the file assignment
    raises into the upload-failure error. *)
Definition upload_reports_every_exception `{!BrowserContext B Node Handle}
    (CV : string) (index : Z) (w : World) (b : B) : Prop :=
  ∀ el upload h b1 b2 b3 e,
    get_dom_element_by_index index b = (Returns (Some el), b1) →
    get_file_upload_element el = Some upload →
    get_locate_element upload b1 = (Returns (Some h), b2) →
    set_input_files h CV b2 = (Raises e, b3) →
    (upload_cv CV index (w, b)).1 = Returns (result_error (upload_failure_msg index)).

(** ** An interrupted browser

    A third implementation of the browser interface: every element
    exists, and an awaited call succeeds until [calls_left] have been
    made; the next one is interrupted by the cancellation of the task,
    a [CancelledError], which is a [BaseException] and no [Exception]
    and whose text is empty. *)
Record Interrupted : Type := mkInterrupted { calls_left : nat }.

Definition cancelled_error : pyexc := NonException "".

Definition await_call : M Interrupted () := λ b,
  match calls_left b with
  | O => (Raises cancelled_error, b)
  | S n => (Returns (), mkInterrupted n)
  end.

Definition await_some : M Interrupted (option ()) :=
  _ ← await_call; mret (Some ()).

Global Instance interrupted_browser : BrowserContext Interrupted () () := {|
  goto _ := await_call;
  wait_for_selector _ := await_some;
  wait_for_navigation := await_call;
  fill _ _ := await_call;
  click _ := await_call;
  set_input_files _ _ := await_call;
  get_dom_element_by_index _ := await_some;
  get_locate_element _ := await_some;
  get_file_upload_element _ := Some ()
|}.

(** ** A scripted browser

    A small implementation of the browser interface, used to run the
    actions on concrete inputs.  Every awaited call spends one unit of
    [toy_budget] and times out when none is left; [toy_dom] maps the
    indices of the page to elements, an element being [true] when it has
    a nested file-upload control; [toy_locatable] says whether such a
    control can be located on the page. *)
Record Toy : Type := mkToy {
  toy_budget : nat;
  toy_dom : gmap Z bool;
  toy_locatable : bool
}.

Definition toy_timeout : pyexc := OtherException "Timeout 30000ms exceeded.".

Definition tick : M Toy () := λ b,
  match toy_budget b with
  | O => (Raises toy_timeout, b)
  | S n => (Returns (), mkToy n (toy_dom b) (toy_locatable b))
  end.

Definition toy_find : M Toy (option ()) :=
  _ ← tick; mret (Some ()).

Definition toy_element (i : Z) : M Toy (option bool) :=
  _ ← tick; gets (λ b, toy_dom b !! i).

Definition toy_locate : M Toy (option ()) :=
  _ ← tick; gets (λ b, if toy_locatable b then Some () else None).

Global Instance toy_browser : BrowserContext Toy bool () := {|
  goto _ := tick;
  wait_for_selector _ := toy_find;
  wait_for_navigation := tick;
  fill _ _ := tick;
  click _ := tick;
  set_input_files _ _ := tick;
  get_dom_element_by_index := toy_element;
  get_locate_element _ := toy_locate;
  get_file_upload_element n := if n then Some n else None
|}.

Definition world0 : World := {|
  environ := {[ "OPENAI_API_KEY" := "sk-test" ]};
  dotenv := ∅;
  cwd := "/home/user";
  cv_file := Some [ {| extract_text := Returns (Some "Jane Doe") |};
                    {| extract_text := Returns None |};
                    {| extract_text := Returns (Some " Data analyst") |} ];
  jobs_csv := None;
  log := [];
  events := []
|}.

(** The module constant [CV] in that world. *)
Definition cv_path0 : string := path_join (cwd world0) CV_NAME.

Definition job_a : Job :=
  mkJob "Data Analyst Intern" "https://www.linkedin.com/jobs/view/1" "Acme, Inc."
        (S754_finite false 7 (-3)) (Some "Taipei") None eq_refl.

Definition job_b : Job :=
  mkJob "Data Scientist Intern" "https://www.linkedin.com/jobs/view/2" "Globex"
        S754_nan None (Some "40k") eq_refl.

(** A job whose title holds a carriage return. *)
Definition job_cr : Job :=
  mkJob ("Analyst" +:+ String CR "Intern") "https://www.linkedin.com/jobs/view/3" "Initech"
        (S754_zero false) None None eq_refl.

(** The same world with both credentials in the environment. *)
Definition world_credentials : World :=
  set_environ (λ env, <["linkedin_email" := "jane@example.org"]>
                        (<["linkedin_password" := "hunter2"]> env)) world0.

(** The same world without the resume. *)
Definition world_no_cv : World :=
  mkWorld (environ world0) (dotenv world0) (cwd world0) None
          (jobs_csv world0) (log world0) (events world0).

(** The same world with a resume whose second page cannot be read. *)
Definition world_bad_page : World :=
  mkWorld (environ world0) (dotenv world0) (cwd world0)
          (Some [ {| extract_text := Returns (Some "Jane Doe") |};
                  {| extract_text := Raises (OtherException "cannot decode page") |};
                  {| extract_text := Returns (Some " Data analyst") |} ])
          (jobs_csv world0) (log world0) (events world0).

(** The same world with a store made by hand: a header line without a
    line end after it. *)
Definition world_header : World :=
  set_jobs_csv (Some "title,company,link,salary,location") world0.

(** The same world with a store that holds a byte which is no UTF-8. *)
Definition world_undecodable : World :=
  set_jobs_csv (Some (String "255"%char "")) world0.

(** * Properties *)

(** ** Strings *)

Lemma app_cons c s t : String c s +:+ t = String c (s +:+ t).
Proof. reflexivity. Qed.

Lemma app_nil_l s : "" +:+ s = s.
Proof. reflexivity. Qed.

Lemma app_nil_r s : s +:+ "" = s.
Proof. induction s as [|c s IH]; [done|]. by rewrite app_cons, IH. Qed.

Lemma app_assoc s t u : (s +:+ t) +:+ u = s +:+ (t +:+ u).
Proof. induction s as [|c s IH]; [done|]. by rewrite !app_cons, IH. Qed.

Lemma snoc_app s c t : snoc s c +:+ t = s +:+ String c t.
Proof. unfold snoc. by rewrite app_assoc. Qed.

Lemma csv_special_false c :
  csv_special c = false →
  Ascii.eqb c comma = false ∧ Ascii.eqb c dquote = false
  ∧ Ascii.eqb c CR = false ∧ Ascii.eqb c LF = false.
Proof.
  unfold csv_special. intros H.
  repeat (apply orb_false_elim in H as [H ?]). auto.
Qed.


(** ** Decoding what the writer wrote *)

Section Decoding.

Implicit Types (st : dstate) (fld f rest : string) (row fields : list string).

(** A character that needs no quoting extends the current field. *)
Lemma go_plain st fld row c rest :
  st ≠ Quoted → csv_special c = false →
  csv_rows_go st fld row (String c rest) = csv_rows_go Unquoted (snoc fld c) row rest.
Proof.
  intros Hst (Hc & Hq & Hcr & Hlf)%csv_special_false.
  destruct st; try done; simpl; by rewrite ?Hc, ?Hq, ?Hcr, ?Hlf.
Qed.

Lemma go_plain_run f : ∀ fld row rest,
  has_special f = false →
  csv_rows_go Unquoted fld row (f +:+ rest) = csv_rows_go Unquoted (fld +:+ f) row rest.
Proof.
  induction f as [|c f IH]; intros fld row rest Hf.
  - by rewrite app_nil_l, app_nil_r.
  - simpl in Hf. apply orb_false_elim in Hf as [Hc Hf].
    rewrite app_cons, go_plain by done.
    rewrite IH by done. by rewrite snoc_app.
Qed.

(** Inside quotes every character of the field comes back, a doubled
    quote as one quote. *)
Lemma go_quoted_run f : ∀ fld row rest,
  csv_rows_go Quoted fld row (double_quotes f +:+ rest)
  = csv_rows_go Quoted (fld +:+ f) row rest.
Proof.
  induction f as [|c f IH]; intros fld row rest.
  - by rewrite app_nil_l, app_nil_r.
  - simpl double_quotes. destruct (Ascii.eqb c dquote) eqn:Hc.
    + rewrite !app_cons. simpl. rewrite !Hc. simpl.
      rewrite IH. by rewrite snoc_app.
    + rewrite app_cons. simpl. rewrite Hc. rewrite IH. by rewrite snoc_app.
Qed.

Lemma go_comma st fld row rest :
  st ≠ Quoted →
  csv_rows_go st fld row (String comma rest)
  = csv_rows_go FieldStart "" (row ++ [fld])%list rest.
Proof. intros Hst. by destruct st. Qed.

Lemma go_open_quote st fld row rest :
  at_field_start st = true →
  csv_rows_go st fld row (String dquote rest) = csv_rows_go Quoted "" row rest.
Proof. intros Hst. by destruct st. Qed.

Lemma go_close_quote fld row rest :
  csv_rows_go Quoted fld row (String dquote rest) = csv_rows_go QuoteSeen fld row rest.
Proof. reflexivity. Qed.

Lemma go_line_end st fld row t rest :
  st ≠ Quoted → blank_record st = false → line_end t →
  csv_rows_go st fld row (t +:+ rest)
  = (row ++ [fld])%list :: csv_rows_go RecordStart "" [] rest.
Proof.
  intros Hq Hb [-> | ->]; destruct st; try done.
Qed.

(** The quoted form of a field, from the start of a field. *)
Lemma go_quoted st f row rest :
  at_field_start st = true →
  csv_rows_go st "" row (quoted f +:+ rest) = csv_rows_go QuoteSeen f row rest.
Proof.
  intros Hst. unfold quoted.
  rewrite app_cons, go_open_quote by done.
  rewrite app_assoc, go_quoted_run, app_nil_l, app_cons, app_nil_l.
  apply go_close_quote.
Qed.

(** A field followed by a comma. *)
Lemma go_field_comma st f row rest :
  at_field_start st = true →
  csv_rows_go st "" row (csv_field f +:+ String comma rest)
  = csv_rows_go FieldStart "" (row ++ [f])%list rest.
Proof.
  intros Hst. unfold csv_field. destruct (has_special f) eqn:Hf.
  - rewrite go_quoted by done. by apply go_comma.
  - destruct f as [|c f].
    + rewrite app_nil_l. apply go_comma. by destruct st.
    + simpl in Hf. apply orb_false_elim in Hf as [Hc Hf].
      rewrite app_cons, go_plain; [|by destruct st|done].
      rewrite go_plain_run by done. rewrite snoc_app, app_nil_l.
      by apply go_comma.
Qed.

(** A field followed by the end of the line; at the start of a record an
    empty field must be quoted. *)
Lemma go_field_end st f row t rest :
  at_field_start st = true → line_end t →
  (blank_record st = true → f ≠ "") →
  csv_rows_go st "" row (csv_field f +:+ t +:+ rest)
  = (row ++ [f])%list :: csv_rows_go RecordStart "" [] rest.
Proof.
  intros Hst Ht Hne. unfold csv_field. destruct (has_special f) eqn:Hf.
  - rewrite go_quoted by done. by apply go_line_end.
  - destruct f as [|c f].
    + rewrite app_nil_l. apply go_line_end; [by destruct st| |done].
      destruct (blank_record st); [by destruct Hne|done].
    + simpl in Hf. apply orb_false_elim in Hf as [Hc Hf].
      rewrite app_cons, go_plain; [|by destruct st|done].
      rewrite go_plain_run by done. rewrite snoc_app, app_nil_l.
      by apply go_line_end.
Qed.

Lemma go_join fields : ∀ row t rest,
  fields ≠ [] → line_end t →
  csv_rows_go FieldStart "" row (csv_join fields +:+ t +:+ rest)
  = (row ++ fields)%list :: csv_rows_go RecordStart "" [] rest.
Proof.
  induction fields as [|f fields IH]; intros row t rest Hne Ht; [done|].
  destruct fields as [|g fields].
  - simpl csv_join. by rewrite go_field_end.
  - change (csv_join (f :: g :: fields))
      with (csv_field f +:+ String comma (csv_join (g :: fields))).
    rewrite app_assoc, app_cons, go_field_comma by done.
    rewrite IH by done. by rewrite <- List.app_assoc.
Qed.

Lemma csv_record_cons f g fields :
  csv_record (f :: g :: fields)
  = csv_field f +:+ String comma (csv_join (g :: fields)).
Proof. by destruct f. Qed.

(** One written record reads back as its fields. *)
Lemma go_record st fields t rest :
  blank_record st = true → fields ≠ [] → line_end t →
  csv_rows_go st "" [] (csv_record fields +:+ t +:+ rest)
  = fields :: csv_rows_go RecordStart "" [] rest.
Proof.
  intros Hst Hne Ht.
  assert (at_field_start st = true) as Hfs by by destruct st.
  destruct fields as [|f [|g fields]]; [done| |].
  - destruct f as [|c f].
    + change (csv_record [""]) with (quoted "").
      rewrite go_quoted by done. by apply go_line_end.
    + change (csv_record [String c f]) with (csv_field (String c f)).
      by rewrite go_field_end.
  - rewrite csv_record_cons, app_assoc, app_cons, go_field_comma by done.
    by rewrite go_join.
Qed.

Lemma csv_rows_record fields t :
  fields ≠ [] → line_end t → csv_rows (csv_record fields +:+ t) = [fields].
Proof.
  intros Hne Ht. unfold csv_rows.
  rewrite <- (app_nil_r (csv_record fields +:+ t)), app_assoc.
  by rewrite go_record.
Qed.

Lemma csv_rows_two_records fields1 fields2 t :
  fields1 ≠ [] → fields2 ≠ [] → line_end t →
  csv_rows ((csv_record fields1 +:+ t) +:+ (csv_record fields2 +:+ t))
  = [fields1; fields2].
Proof.
  intros H1 H2 Ht. unfold csv_rows.
  rewrite app_assoc, go_record by done.
  f_equal. by apply csv_rows_record.
Qed.

End Decoding.

(** ** Line ends as a text-mode read returns them *)

Section Newlines.

Implicit Types (b : bool) (s t f : string) (fields : list string).

(** A pending CR only matters when the next character is a LF. *)
Lemma translate_pending b s :
  starts_lf s = false → translate_newlines b s = translate_newlines false s.
Proof.
  destruct s as [|c s]; [done|]. simpl. intros ->. by rewrite !andb_false_l.
Qed.

Lemma translate_app s : ∀ b t,
  starts_lf t = false →
  translate_newlines b (s +:+ t) = translate_newlines b s +:+ translate_newlines false t.
Proof.
  induction s as [|c s IH]; intros b t Ht.
  - rewrite !app_nil_l. by apply translate_pending.
  - rewrite app_cons. simpl.
    destruct (Ascii.eqb c CR); [by rewrite IH|].
    destruct (Ascii.eqb c LF && b); by rewrite IH.
Qed.

Lemma translate_double_quotes f : ∀ b,
  translate_newlines b (double_quotes f) = double_quotes (translate_newlines b f).
Proof.
  induction f as [|c f IH]; intros b; [done|].
  simpl. destruct (Ascii.eqb c dquote) eqn:Hq.
  - apply Ascii.eqb_eq in Hq as ->. simpl. by rewrite !IH.
  - simpl. destruct (Ascii.eqb c CR) eqn:Hcr.
    + simpl. by rewrite IH.
    + destruct (Ascii.eqb c LF && b); [by rewrite IH|].
      simpl. by rewrite Hq, IH.
Qed.

Lemma has_special_translate f :
  has_special (universal_newlines f) = has_special f.
Proof.
  unfold universal_newlines. induction f as [|c f IH]; [done|].
  simpl. destruct (Ascii.eqb c CR) eqn:Hcr.
  - apply Ascii.eqb_eq in Hcr as ->. done.
  - rewrite andb_false_r. simpl. by rewrite IH.
Qed.

Lemma translate_plain f : ∀ b,
  has_special f = false → translate_newlines b f = f.
Proof.
  induction f as [|c f IH]; intros b Hf; [done|].
  simpl in Hf. apply orb_false_elim in Hf as [Hc Hf].
  apply csv_special_false in Hc as (_ & _ & Hcr & Hlf).
  simpl. by rewrite Hcr, Hlf, IH.
Qed.

Lemma translate_quoted b f :
  translate_newlines b (quoted f) = quoted (universal_newlines f).
Proof.
  unfold quoted, universal_newlines.
  change (translate_newlines b (String dquote (double_quotes f +:+ String dquote "")))
    with (String dquote (translate_newlines false (double_quotes f +:+ String dquote ""))).
  rewrite translate_app by done. by rewrite translate_double_quotes.
Qed.

Lemma translate_field f :
  universal_newlines (csv_field f) = csv_field (universal_newlines f).
Proof.
  unfold csv_field. rewrite has_special_translate.
  destruct (has_special f) eqn:Hf.
  - apply translate_quoted.
  - unfold universal_newlines. by rewrite !translate_plain.
Qed.

Lemma starts_lf_field f t :
  starts_lf t = false → starts_lf (csv_field f +:+ t) = false.
Proof.
  intros Ht. unfold csv_field. destruct (has_special f) eqn:Hf; [done|].
  destruct f as [|c f]; [done|].
  simpl in Hf. apply orb_false_elim in Hf as [Hc Hf].
  by apply csv_special_false in Hc as (_ & _ & _ & Hlf).
Qed.

Lemma starts_lf_join fields t :
  starts_lf t = false → starts_lf (csv_join fields +:+ t) = false.
Proof.
  intros Ht. destruct fields as [|f [|g fields]]; [done| |].
  - by apply starts_lf_field.
  - change (csv_join (f :: g :: fields))
      with (csv_field f +:+ String comma (csv_join (g :: fields))).
    rewrite app_assoc. by apply starts_lf_field.
Qed.

Lemma starts_lf_record fields t :
  starts_lf t = false → starts_lf (csv_record fields +:+ t) = false.
Proof.
  intros Ht. destruct fields as [|f [|g fields]]; [done| |].
  - destruct f; [done|]. by apply starts_lf_field.
  - rewrite csv_record_cons, app_assoc. by apply starts_lf_field.
Qed.

Lemma translate_join fields :
  universal_newlines (csv_join fields) = csv_join (universal_newlines <$> fields).
Proof.
  induction fields as [|f [|g fields] IH]; [done| |].
  - apply translate_field.
  - change (csv_join (f :: g :: fields))
      with (csv_field f +:+ String comma (csv_join (g :: fields))).
    change (csv_join (universal_newlines <$> f :: g :: fields))
      with (csv_field (universal_newlines f)
            +:+ String comma (csv_join (universal_newlines <$> g :: fields))).
    unfold universal_newlines at 1. rewrite translate_app by done.
    fold (universal_newlines (csv_field f)). rewrite translate_field.
    f_equal. change (translate_newlines false (String comma (csv_join (g :: fields))))
      with (String comma (universal_newlines (csv_join (g :: fields)))).
    by rewrite IH.
Qed.

Lemma universal_newlines_nonempty c f : universal_newlines (String c f) ≠ "".
Proof.
  unfold universal_newlines. simpl.
  destruct (Ascii.eqb c CR); [done|]. by rewrite andb_false_r.
Qed.

Lemma translate_record fields :
  universal_newlines (csv_record fields) = csv_record (universal_newlines <$> fields).
Proof.
  destruct fields as [|f [|g fields]]; [done| |].
  - destruct f as [|c f]; [done|].
    change (csv_record [String c f]) with (csv_join [String c f]).
    rewrite translate_join. simpl fmap.
    pose proof (universal_newlines_nonempty c f).
    by destruct (universal_newlines (String c f)).
  - change (universal_newlines <$> f :: g :: fields)
      with (universal_newlines f :: universal_newlines g :: (universal_newlines <$> fields)).
    rewrite !csv_record_cons.
    change (csv_field f +:+ String comma (csv_join (g :: fields)))
      with (csv_join (f :: g :: fields)).
    by rewrite translate_join.
Qed.

(** A written row, read in text mode, whatever came before it. *)
Lemma translate_writerow b row :
  translate_newlines b (writerow row)
  = csv_record (universal_newlines <$> (default "" <$> row)) +:+ String LF "".
Proof.
  unfold writerow.
  rewrite translate_pending by by apply starts_lf_record.
  rewrite translate_app by done.
  fold (universal_newlines (csv_record (default "" <$> row))).
  by rewrite translate_record.
Qed.

Lemma starts_lf_writerow row t : starts_lf (writerow row +:+ t) = false.
Proof.
  unfold writerow. rewrite app_assoc. by apply starts_lf_record.
Qed.

End Newlines.

(** ** Texts and their bytes *)

Example utf8_valid_examples :
  utf8_valid credentials_error = true
  ∧ utf8_valid (String "255"%char "") = false
  ∧ utf8_valid (String "192"%char (String "128"%char "")) = false
  ∧ utf8_valid (String "237"%char (String "160"%char (String "128"%char ""))) = false
  ∧ utf8_valid (String "226"%char (String "130"%char "")) = false
  ∧ utf8_valid (String "226"%char (String "130"%char (String "172"%char ""))) = true.
Proof. repeat split. Qed.

Section Utf8.

Implicit Types (st : utf8_state) (s t f : string) (fields : list string).

Lemma utf8_ok_app s : ∀ st t,
  utf8_ok st s = true → utf8_valid t = true → utf8_ok st (s +:+ t) = true.
Proof.
  induction s as [|c s IH]; intros st t Hs Ht.
  - rewrite app_nil_l. by destruct st.
  - rewrite app_cons. simpl in *.
    destruct (utf8_next st c); [by apply IH|done].
Qed.

Lemma utf8_valid_app s t :
  utf8_valid s = true → utf8_valid t = true → utf8_valid (s +:+ t) = true.
Proof. apply utf8_ok_app. Qed.



Lemma utf8_ok_double_quotes f : ∀ st,
  utf8_ok st f = true → utf8_ok st (double_quotes f) = true.
Proof.
  induction f as [|c f IH]; intros st Hf; [done|].
  simpl double_quotes. destruct (Ascii.eqb c dquote) eqn:Hc.
  - apply Ascii.eqb_eq in Hc as ->.
    destruct st; try discriminate Hf. by apply (IH Utf8Start).
  - simpl in *. destruct (utf8_next st c); [by apply IH|done].
Qed.

Lemma utf8_valid_quoted f : utf8_valid f = true → utf8_valid (quoted f) = true.
Proof.
  intros Hf. unfold quoted.
  change (utf8_valid (String dquote (double_quotes f +:+ String dquote "")))
    with (utf8_valid (double_quotes f +:+ String dquote "")).
  apply utf8_valid_app; [by apply utf8_ok_double_quotes|done].
Qed.

Lemma utf8_valid_field f : utf8_valid f = true → utf8_valid (csv_field f) = true.
Proof.
  intros Hf. unfold csv_field. destruct (has_special f); [|done].
  by apply utf8_valid_quoted.
Qed.

Lemma utf8_valid_join fields :
  Forall (λ f, utf8_valid f = true) fields → utf8_valid (csv_join fields) = true.
Proof.
  induction 1 as [|f fields Hf Hfields IH]; [done|].
  destruct fields as [|g fields]; [by apply utf8_valid_field|].
  change (csv_join (f :: g :: fields))
    with (csv_field f +:+ String comma (csv_join (g :: fields))).
  apply utf8_valid_app; [by apply utf8_valid_field|apply IH].
Qed.

Lemma utf8_valid_record fields :
  Forall (λ f, utf8_valid f = true) fields → utf8_valid (csv_record fields) = true.
Proof.
  intros Hfields. destruct fields as [|f [|g fields]]; [done| |].
  - destruct f; [done|]. by apply utf8_valid_join.
  - rewrite csv_record_cons.
    change (csv_field f +:+ String comma (csv_join (g :: fields)))
      with (csv_join (f :: g :: fields)).
    by apply utf8_valid_join.
Qed.

Lemma job_fields_valid (job : Job) :
  Forall (λ f, utf8_valid f = true) (job_fields job).
Proof.
  pose proof (job_text job) as H. simpl in H.
  repeat (apply andb_prop in H as [? H]).
  unfold job_fields. repeat constructor; done.
Qed.

Lemma utf8_valid_job_row (job : Job) : utf8_valid (writerow (job_row job)) = true.
Proof.
  unfold writerow.
  change (default "" <$> job_row job) with (job_fields job).
  apply utf8_valid_app; [|done].
  apply utf8_valid_record, job_fields_valid.
Qed.

Lemma utf8_valid_rows_text (jobs : list Job) : utf8_valid (rows_text jobs) = true.
Proof.
  induction jobs as [|job jobs IH]; [done|].
  simpl rows_text. apply utf8_valid_app; [apply utf8_valid_job_row|done].
Qed.

End Utf8.

(** ** The job record store *)

Section Store.

Implicit Types (job a b : Job) (w : World).

Lemma job_row_fields job : default "" <$> job_row job = job_fields job.
Proof. reflexivity. Qed.

Lemma job_fields_nonempty job : job_fields job ≠ [].
Proof. done. Qed.

Lemma line_end_crlf : line_end CRLF.
Proof. by left. Qed.

Lemma line_end_lf : line_end (String LF "").
Proof. by right. Qed.

Lemma writerow_holds job : row_holds (writerow (job_row job)) (job_fields job).
Proof.
  unfold row_holds, writerow. rewrite job_row_fields.
  apply csv_rows_record; [done|apply line_end_crlf].
Qed.

Lemma save_jobs_eq job w :
  save_jobs job w
  = (Returns "Saved job to file",
     set_jobs_csv (Some (default "" (jobs_csv w) +:+ writerow (job_row job))) w).
Proof. reflexivity. Qed.

Lemma after_two_saves_store a b w :
  jobs_csv (after_two_saves a b w)
  = Some (default "" (jobs_csv w) +:+ writerow (job_row a) +:+ writerow (job_row b)).
Proof.
  unfold after_two_saves. rewrite !save_jobs_eq. simpl. by rewrite app_assoc.
Qed.

Lemma read_jobs_eq w text :
  jobs_csv w = Some text → utf8_valid text = true →
  read_jobs w = (Returns (universal_newlines text), w).
Proof. intros H Hv. unfold read_jobs, gets, mbind, M_bind. by rewrite H, Hv. Qed.


Lemma read_row_eq job (pending : bool) :
  translate_newlines pending (writerow (job_row job)) = read_row job.
Proof. by rewrite translate_writerow, job_row_fields. Qed.

Lemma read_after_two_saves_eq a b w :
  utf8_valid (default "" (jobs_csv w)) = true →
  read_after_two_saves a b w
  = Returns (universal_newlines (default "" (jobs_csv w)) +:+ read_row a +:+ read_row b).
Proof.
  intros Hv. unfold read_after_two_saves.
  rewrite (read_jobs_eq _ _ (after_two_saves_store a b w))
    by (apply utf8_valid_app; [done|];
        apply utf8_valid_app; apply utf8_valid_job_row).
  simpl.
  unfold universal_newlines.
  rewrite translate_app by apply starts_lf_writerow.
  rewrite translate_app.
  - by rewrite !read_row_eq.
  - rewrite <- (app_nil_r (writerow (job_row b))). apply starts_lf_writerow.
Qed.

Lemma read_row_holds job :
  row_holds (read_row job) (universal_newlines <$> job_fields job).
Proof.
  unfold row_holds, read_row. apply csv_rows_record; [done|apply line_end_lf].
Qed.

Lemma universal_newlines_no_cr s : has_cr s = false → universal_newlines s = s.
Proof.
  unfold universal_newlines. induction s as [|c s IH]; [done|].
  simpl. intros [Hc Hs]%orb_false_elim.
  by rewrite Hc, andb_false_r, IH.
Qed.

(** On jobs without a carriage return in any field the rows come back
    with their fields unchanged. *)
Lemma reads_back_rows_no_cr a b w :
  utf8_valid (default "" (jobs_csv w)) = true →
  Forall (λ f, has_cr f = false) (job_fields a) →
  Forall (λ f, has_cr f = false) (job_fields b) →
  reads_back_rows a b w.
Proof.
  intros Hv Ha Hb.
  exists (universal_newlines (default "" (jobs_csv w))), (read_row a), (read_row b).
  split; [by apply read_after_two_saves_eq|].
  assert (∀ fields, Forall (λ f, has_cr f = false) fields →
            universal_newlines <$> fields = fields) as Hid.
  { induction 1 as [|f fields Hf _ IH]; [done|].
    by rewrite fmap_cons, universal_newlines_no_cr, IH. }
  pose proof (read_row_holds a) as Hra. pose proof (read_row_holds b) as Hrb.
  rewrite Hid in Hra, Hrb by done. done.
Qed.




End Store.

(** ** The store as an ordered sequence of rows *)

Lemma save_all_store (jobs : list Job) : ∀ w : World,
  jobs ≠ [] →
  jobs_csv (save_all jobs w) = Some (default "" (jobs_csv w) +:+ rows_text jobs).
Proof.
  induction jobs as [|job jobs IH]; intros w Hne; [done|].
  destruct jobs as [|job' jobs].
  - simpl. by rewrite app_nil_r.
  - change (save_all (job :: job' :: jobs) w)
      with (save_all (job' :: jobs) (save_jobs job w).2).
    rewrite IH by done. rewrite save_jobs_eq. simpl. by rewrite app_assoc.
Qed.

Lemma csv_rows_rows_text (jobs : list Job) :
  csv_rows (rows_text jobs) = job_fields <$> jobs.
Proof.
  unfold csv_rows. induction jobs as [|job jobs IH]; [done|].
  simpl rows_text. unfold writerow. rewrite job_row_fields, app_assoc.
  rewrite go_record; [|done|done|apply line_end_crlf].
  by rewrite IH.
Qed.

(** Starting from an absent store, the file holds one row per saved job,
    in the order of the calls. *)
Lemma store_holds_jobs_in_order (jobs : list Job) (w : World) :
  jobs_csv w = None → jobs ≠ [] →
  ∃ text, jobs_csv (save_all jobs w) = Some text
          ∧ csv_rows text = job_fields <$> jobs.
Proof.
  intros Hw Hne. exists (rows_text jobs). split.
  - by rewrite save_all_store, Hw.
  - apply csv_rows_rows_text.
Qed.

Example store_of_three_jobs :
  csv_rows (default "" (jobs_csv (save_all [job_a; job_cr; job_b] world0)))
  = [job_fields job_a; job_fields job_cr; job_fields job_b].
Proof. reflexivity. Qed.

Example read_back_two_jobs :
  read_after_two_saves job_a job_b world0
  = Returns ("Data Analyst Intern," +:+ quoted "Acme, Inc."
             +:+ ",https://www.linkedin.com/jobs/view/1,,Taipei" +:+ String LF ""
             +:+ "Data Scientist Intern,Globex,https://www.linkedin.com/jobs/view/2,40k,"
             +:+ String LF "").
Proof. reflexivity. Qed.

(** The carriage return of a title is a line feed in what is read. *)
Example read_back_cr_title :
  read_after_two_saves job_cr job_cr world0
  = Returns (read_row job_cr +:+ read_row job_cr)
  ∧ csv_rows (read_row job_cr)
    = [["Analyst" +:+ String LF "Intern"; "Initech";
        "https://www.linkedin.com/jobs/view/3"; ""; ""]].
Proof. split; reflexivity. Qed.

(** ** A row put after a text *)

Section Composition.

Implicit Types (st : dstate) (fld s t old : string) (row fields : list string).

Lemma csv_rows_go_step st fld row c s :
  csv_rows_go st fld row (String c s)
  = let '(done, (st', fld', row')) := csv_step st fld row c in
    (option_list done ++ csv_rows_go st' fld' row' s)%list.
Proof.
  unfold csv_step. destruct st; simpl;
    repeat match goal with
    | |- context [if ?x then _ else _] => destruct x
    end; reflexivity.
Qed.

(** The reading of a text followed by another: the rows completed in
    the first, then the reading of the second from the state reached. *)
Lemma csv_rows_go_scan s : ∀ st fld row t,
  csv_rows_go st fld row (s +:+ t)
  = let '(rows, (st', fld', row')) := csv_scan st fld row s in
    (rows ++ csv_rows_go st' fld' row' t)%list.
Proof.
  induction s as [|c s IH]; intros st fld row t; [done|].
  rewrite app_cons, csv_rows_go_step. simpl csv_scan.
  destruct (csv_step st fld row c) as [done [[st' fld'] row']].
  rewrite IH. destruct (csv_scan st' fld' row' s) as [rows [[st'' fld''] row'']].
  by rewrite List.app_assoc.
Qed.

(** Between two records nothing of a field or a row is pending. *)
Lemma csv_step_rest st fld row c :
  let '(_, (st', fld', row')) := csv_step st fld row c in
  blank_record st' = true → fld' = "" ∧ row' = [].
Proof.
  unfold csv_step. destruct st; simpl;
    repeat match goal with
    | |- context [if ?x then _ else _] => destruct x
    end; simpl; done.
Qed.

Lemma csv_scan_rest s : ∀ st fld row,
  (blank_record st = true → fld = "" ∧ row = []) →
  let '(_, (st', fld', row')) := csv_scan st fld row s in
  blank_record st' = true → fld' = "" ∧ row' = [].
Proof.
  induction s as [|c s IH]; intros st fld row Hrest; [done|].
  simpl csv_scan. pose proof (csv_step_rest st fld row c) as Hstep.
  destruct (csv_step st fld row c) as [done [[st' fld'] row']].
  specialize (IH st' fld' row' Hstep).
  by destruct (csv_scan st' fld' row' s) as [rows [[st'' fld''] row'']].
Qed.

(** A record written after a text that ends a record adds one row to
    the rows of that text. *)
Lemma csv_rows_after_record old fields :
  ends_record old = true → fields ≠ [] →
  csv_rows (old +:+ (csv_record fields +:+ CRLF))
  = (csv_rows old ++ [fields])%list.
Proof.
  unfold ends_record, csv_rows. intros Hend Hne.
  rewrite <- (app_nil_r old) at 2. rewrite !csv_rows_go_scan.
  pose proof (csv_scan_rest old RecordStart "" [] (λ _, conj eq_refl eq_refl)) as Hrest.
  destruct (csv_scan RecordStart "" [] old) as [rows [[st fld] row]].
  simpl in Hend. destruct (Hrest Hend) as [-> ->].
  change (csv_record fields +:+ CRLF) with (csv_record fields +:+ CRLF +:+ "").
  rewrite go_record by (done || apply line_end_crlf).
  simpl. by rewrite Hend, List.app_nil_r.
Qed.

End Composition.

(** ** Claims about the job record store *)

(** C3, as stated, fails on a store whose last line has no line end: the
    written text continues that line, and the rows of the store are not
    the former rows followed by one more. *)
Lemma header_line_takes_the_row : ¬ appends_one_row job_a world_header.
Proof.
  intros (text & Hstore & Hrows).
  assert (text = default "" (jobs_csv (save_jobs job_a world_header).2)) as ->
    by by rewrite Hstore.
  apply (f_equal length) in Hrows. vm_compute in Hrows. discriminate.
Qed.

(** C3, amended: for every job, [save_jobs] returns the fixed
    confirmation string and puts at the end of the store file, created
    when absent, the text of exactly one row with the columns title,
    company, link, salary, location in that order; nothing else of the
    state changes.  When the store was absent or ended a record, its
    rows are then the former rows followed by that one row. *)
Theorem save_jobs_appends_one_row (job : Job) (w : World) :
  (save_jobs job w).1 = Returns "Saved job to file"
  ∧ jobs_csv (save_jobs job w).2
    = Some (default "" (jobs_csv w) +:+ writerow (job_row job))
  ∧ row_holds (writerow (job_row job))
      [title job; company job; link job;
       default "" (salary job); default "" (location job)]
  ∧ (ends_record (default "" (jobs_csv w)) = true →
     csv_rows (default "" (jobs_csv (save_jobs job w).2))
     = (csv_rows (default "" (jobs_csv w))
        ++ [[title job; company job; link job;
             default "" (salary job); default "" (location job)]])%list)
  ∧ log (save_jobs job w).2 = log w
  ∧ environ (save_jobs job w).2 = environ w
  ∧ cv_file (save_jobs job w).2 = cv_file w.
Proof.
  split; [reflexivity|]. split; [reflexivity|]. split; [apply writerow_holds|].
  split; [|done].
  intros Hend. rewrite save_jobs_eq. simpl. unfold writerow.
  rewrite job_row_fields. by apply csv_rows_after_record.
Qed.

Lemma save_jobs_appends_one_row_witness :
  csv_rows (default "" (jobs_csv (save_jobs job_b (save_jobs job_a world0).2).2))
  = (csv_rows (default "" (jobs_csv (save_jobs job_a world0).2))
     ++ [job_fields job_b])%list.
Proof.
  apply (proj1 (proj2 (proj2 (proj2
           (save_jobs_appends_one_row job_b (save_jobs job_a world0).2))))).
  reflexivity.
Defined.


(** C4, as stated, also fails on a store that holds bytes which are no
    text: nothing is read back, [read_jobs] raises. *)
Lemma undecodable_store_not_read_back :
  ¬ reads_back_rows job_a job_b world_undecodable.
Proof. intros (before & ra & rb & Hread & _). discriminate Hread. Qed.



(** C5: when the store file does not exist, [read_jobs] raises
    [FileNotFoundError]; it does not return an empty text. *)
Theorem read_jobs_missing_store (w : World) :
  jobs_csv w = None →
  read_jobs w
  = (Raises (FileNotFoundError "[Errno 2] No such file or directory: 'jobs.csv'"), w)
  ∧ (read_jobs w).1 ≠ Returns "".
Proof.
  intros H. unfold read_jobs, gets, mbind, M_bind. rewrite H. by split.
Qed.

Lemma read_jobs_missing_store_witness :
  jobs_csv world0 = None
  ∧ read_jobs world0
    = (Raises (FileNotFoundError "[Errno 2] No such file or directory: 'jobs.csv'"), world0).
Proof.
  split; [reflexivity|].
  apply (proj1 (read_jobs_missing_store world0 eq_refl)).
Defined.

(** C9: the row [save_jobs] writes has the five columns title, company,
    link, salary, location and nothing else; the fit score of the job has
    no effect on what is written or returned. *)
Theorem save_jobs_drops_fit_score (job : Job) (x : spec_float) (w : World) :
  save_jobs (set_fit_score x job) w = save_jobs job w
  ∧ csv_rows (writerow (job_row job))
    = [[title job; company job; link job;
        default "" (salary job); default "" (location job)]]
  ∧ jobs_csv (save_jobs job w).2
    = Some (default "" (jobs_csv w) +:+ writerow (job_row job)).
Proof.
  split; [reflexivity|]. split; [apply writerow_holds|reflexivity].
Qed.

(** ** The resume reader *)

Lemma or_empty_default (t : option string) : or_empty t = default "" t.
Proof. by destruct t as [[|c s]|]. Qed.

Lemma read_pages_concat (pages : list Page) : ∀ (texts : list (option string)) (acc : string),
  extract_text <$> pages = Returns <$> texts →
  read_pages acc pages = Returns (acc +:+ concat_texts texts).
Proof.
  induction pages as [|page pages IH]; intros [|t texts] acc H;
    try discriminate H.
  - simpl. by rewrite app_nil_r.
  - rewrite !fmap_cons in H. injection H as Hp Hps.
    simpl. rewrite Hp, (IH texts) by done.
    rewrite or_empty_default, app_assoc. reflexivity.
Qed.

(** A page whose extraction raises ends the whole read with that
    exception. *)
Lemma read_pages_raises (before : list Page) (page : Page) (after : list Page)
    (texts : list (option string)) (acc : string) (e : pyexc) :
  extract_text <$> before = Returns <$> texts →
  extract_text page = Raises e →
  read_pages acc (before ++ page :: after) = Raises e.
Proof.
  revert texts acc. induction before as [|p before IH]; intros [|t texts] acc H He;
    try discriminate H.
  - simpl. by rewrite He.
  - rewrite !fmap_cons in H. injection H as Hp Hps.
    simpl. rewrite Hp. by apply (IH texts).
Qed.

(** C2: when the resume is a document whose pages yield the texts
    [texts], a page without extractable text yielding [None], [read_cv]
    returns the texts put end to end in page order, [None] counting for
    the empty string, flagged for the agent's memory. *)
Theorem read_cv_concatenates (CV : string) (w : World)
    (pages : list Page) (texts : list (option string)) :
  cv_file w = Some pages →
  extract_text <$> pages = Returns <$> texts →
  read_cv CV w
  = (Returns {| extracted_content := Some (concat_texts texts);
                error := None;
                include_in_memory := true |},
     add_log LvInfo
       ("Read cv with " +:+ pretty (py_len (concat_texts texts)) +:+ " characters") w).
Proof.
  intros Hcv Hpages.
  unfold read_cv, gets, of_outcome, logger_info, modify, mbind, M_bind, mret, M_ret.
  rewrite Hcv. by rewrite (read_pages_concat pages texts "" Hpages), app_nil_l.
Qed.

Lemma read_cv_concatenates_witness :
  (read_cv "/home/user/Hsu_Tse_Chun_s_CV_DS.pdf" world0).1
  = Returns (result_content "Jane Doe Data analyst" true).
Proof.
  rewrite (read_cv_concatenates _ world0 _
             [Some "Jane Doe"; None; Some " Data analyst"] eq_refl eq_refl).
  reflexivity.
Defined.

(** ** The browser actions *)

Section BrowserClaims.
Context {B Node Handle : Type} `{!BrowserContext B Node Handle}.

Ltac run :=
  unfold try_except, on_snd, on_fst, logger_info, logger_error, logger_debug,
    modify, gets, raise, mbind, M_bind, mret, M_ret; simpl.

(** One awaited browser call, by cases on its outcome. *)
Ltac call m :=
  destruct m as [[?|?] ?] eqn:?; simpl;
  repeat match goal with
  | x : () |- _ => destruct x
  | x : option _ |- _ => destruct x; simpl
  end.

Ltac step :=
  match goal with
  | |- context [goto ?u ?s] => is_var s; call (goto u s)
  | |- context [wait_for_selector ?u ?s] => is_var s; call (wait_for_selector u s)
  | |- context [fill ?h ?t ?s] => is_var s; call (fill h t s)
  | |- context [click ?h ?s] => is_var s; call (click h s)
  | |- context [wait_for_navigation ?s] => is_var s; call (wait_for_navigation s)
  | |- context [is_Exception ?e] => destruct (is_Exception e) eqn:?; simpl
  end.

(** C6, amended: whatever the outcome of the browser calls of the login
    action, if they all succeed the action returns a result with the
    success message as content and the memory flag true; if one of them
    raises an [Exception] the action returns a result whose error is the
    fixed prefix followed by the text of the exception, a message that
    is never empty, with the memory flag false; if one of them raises a
    [BaseException] that is no [Exception], the handler does not catch
    it: it leaves the action, no result is returned and nothing is
    logged. *)
Theorem linkedin_login_outcome (email password : string) (w : World) (b : B) :
  match login_steps email password b with
  | (Returns _, b') =>
      linkedin_login email password (w, b)
      = (Returns {| extracted_content := Some "Successfully logged in to LinkedIn";
                    error := None;
                    include_in_memory := true |},
         (add_log LvInfo "Successfully logged in to LinkedIn" w, b'))
  | (Raises e, b') =>
      if is_Exception e then
        linkedin_login email password (w, b)
        = (Returns {| extracted_content := None;
                      error := Some ("Failed to login to LinkedIn: " +:+ str_exc e);
                      include_in_memory := false |},
           (add_log LvError ("Failed to login to LinkedIn: " +:+ str_exc e) w, b'))
        ∧ "Failed to login to LinkedIn: " +:+ str_exc e ≠ ""
      else
        linkedin_login email password (w, b) = (Raises e, (w, b'))
  end.
Proof.
  unfold linkedin_login, login_steps, call_fill, call_click. run.
  repeat step; done.
Qed.

Lemma result_error_inj (m1 m2 : string) :
  result_error m1 = result_error m2 → m1 = m2.
Proof. by intros [= ->]. Qed.

Lemma upload_messages_differ (index : Z) :
  no_element_msg index ≠ no_upload_element_msg index
  ∧ no_element_msg index ≠ upload_failure_msg index
  ∧ no_upload_element_msg index ≠ upload_failure_msg index.
Proof.
  repeat split; intros H.
  - apply (f_equal (String.get 3)) in H. lazy in H. discriminate.
  - apply (f_equal (String.get 0)) in H. lazy in H. discriminate.
  - apply (f_equal (String.get 0)) in H. lazy in H. discriminate.
Qed.

(** C7, amended: the three named outcomes of [upload_cv] are as
    claimed: no element at the index gives an error naming the index, an
    element without a nested file-upload control a different error
    naming the index, a successful assignment a message holding the path
    of the resume and the index.  They are not the only ones: whenever
    the action returns, its result is exactly one of four, these three
    and the upload-failure error naming the index; and it raises, with
    no result, when the lookup by index or the location of the control
    raises, or when the assignment raises what is no [Exception]. *)
Theorem upload_cv_outcomes (CV : string) (index : Z) (w : World) (b : B) :
  (∀ b1,
     get_dom_element_by_index index b = (Returns None, b1) →
     upload_cv CV index (w, b)
     = (Returns {| extracted_content := None;
                   error := Some ("No element found at index " +:+ pretty index);
                   include_in_memory := false |},
        (w, b1)))
  ∧ (∀ el b1,
       get_dom_element_by_index index b = (Returns (Some el), b1) →
       get_file_upload_element el = None →
       upload_cv CV index (w, b)
       = (Returns {| extracted_content := None;
                     error := Some ("No file upload element found at index " +:+ pretty index);
                     include_in_memory := false |},
          (add_log LvInfo ("No file upload element found at index " +:+ pretty index) w, b1)))
  ∧ (∀ el upload h b1 b2 b3,
       get_dom_element_by_index index b = (Returns (Some el), b1) →
       get_file_upload_element el = Some upload →
       get_locate_element upload b1 = (Returns (Some h), b2) →
       set_input_files h CV b2 = (Returns (), b3) →
       upload_cv CV index (w, b)
       = (Returns {| extracted_content :=
                       Some ("Successfully uploaded file "
                             +:+ String dquote (CV +:+ String dquote (" to index " +:+ pretty index)));
                     error := None;
                     include_in_memory := false |},
          (add_log LvInfo
             ("Successfully uploaded file "
              +:+ String dquote (CV +:+ String dquote (" to index " +:+ pretty index))) w,
           b3)))
  ∧ match (upload_cv CV index (w, b)).1 with
    | Returns r =>
        r ∈ [result_error ("No element found at index " +:+ pretty index);
             result_error ("No file upload element found at index " +:+ pretty index);
             result_error ("Failed to upload file to index " +:+ pretty index);
             result_content
               ("Successfully uploaded file "
                +:+ String dquote (CV +:+ String dquote (" to index " +:+ pretty index)))
               false]
    | Raises e =>
        (∃ b1, get_dom_element_by_index index b = (Raises e, b1))
        ∨ (∃ el upload b1 b2,
             get_dom_element_by_index index b = (Returns (Some el), b1)
             ∧ get_file_upload_element el = Some upload
             ∧ get_locate_element upload b1 = (Raises e, b2))
        ∨ (∃ el upload h b1 b2 b3,
             get_dom_element_by_index index b = (Returns (Some el), b1)
             ∧ get_file_upload_element el = Some upload
             ∧ get_locate_element upload b1 = (Returns (Some h), b2)
             ∧ set_input_files h CV b2 = (Raises e, b3)
             ∧ is_Exception e = false)
    end
  ∧ NoDup [result_error ("No element found at index " +:+ pretty index);
           result_error ("No file upload element found at index " +:+ pretty index);
           result_error ("Failed to upload file to index " +:+ pretty index);
           result_content
             ("Successfully uploaded file "
              +:+ String dquote (CV +:+ String dquote (" to index " +:+ pretty index)))
             false].
Proof.
  split; [|split; [|split; [|split]]].
  - intros b1 H1. unfold upload_cv. run. by rewrite H1.
  - intros el b1 H1 H2. unfold upload_cv. run. rewrite H1. simpl. by rewrite H2.
  - intros el upload h b1 b2 b3 H1 H2 H3 H4. unfold upload_cv. run.
    rewrite H1. simpl. rewrite H2. simpl. rewrite H3. simpl. by rewrite H4.
  - unfold upload_cv. run.
    destruct (get_dom_element_by_index index b) as [[[el|]|e] b1] eqn:H1; simpl;
      [|set_solver|by left; exists b1].
    destruct (get_file_upload_element el) as [upload|] eqn:H2; simpl; [|set_solver].
    destruct (get_locate_element upload b1) as [[[h|]|e] b2] eqn:H3; simpl;
      [|set_solver|by right; left; exists el, upload, b1, b2].
    destruct (set_input_files h CV b2) as [[[]|e] b3] eqn:H4; simpl; [set_solver|].
    destruct (is_Exception e) eqn:He; simpl; [set_solver|].
    right; right. by exists el, upload, h, b1, b2, b3.
  - destruct (upload_messages_differ index) as (H12 & H13 & H23).
    unfold no_element_msg, no_upload_element_msg, upload_failure_msg in *.
    repeat (apply NoDup_cons; split); [| | | |apply NoDup_nil_2];
      rewrite ?not_elem_of_cons; repeat split;
      try apply not_elem_of_nil; try discriminate;
      by intros ?%result_error_inj.
Qed.

(** C8, amended: when the file assignment raises an [Exception],
    [upload_cv] returns the upload-failure error for the index, which
    does not depend on the exception; the text of the exception goes to
    the log only, in one record at debug level.  When it raises a
    [BaseException] that is no [Exception], the handler does not catch
    it: it leaves the action, no error is returned and nothing is
    logged. *)
Theorem upload_cv_assignment_failure (CV : string) (index : Z) (w : World) (b : B)
    (el upload : Node) (h : Handle) (b1 b2 b3 : B) (e : pyexc) :
  get_dom_element_by_index index b = (Returns (Some el), b1) →
  get_file_upload_element el = Some upload →
  get_locate_element upload b1 = (Returns (Some h), b2) →
  set_input_files h CV b2 = (Raises e, b3) →
  if is_Exception e then
    (upload_cv CV index (w, b)).1
    = Returns {| extracted_content := None;
                 error := Some ("Failed to upload file to index " +:+ pretty index);
                 include_in_memory := false |}
    ∧ log (upload_cv CV index (w, b)).2.1
      = (log w ++ [(LvDebug, "Error in set_input_files: " +:+ str_exc e)])%list
    ∧ (upload_cv CV index (w, b)).2.2 = b3
  else
    (upload_cv CV index (w, b)).1 = Raises e
    ∧ log (upload_cv CV index (w, b)).2.1 = log w
    ∧ (upload_cv CV index (w, b)).2.2 = b3.
Proof.
  intros H1 H2 H3 H4. unfold upload_cv. run.
  rewrite H1. simpl. rewrite H2. simpl. rewrite H3. simpl. rewrite H4.
  by destruct (is_Exception e).
Qed.

(** C10: an element without a nested file-upload control and an upload
    control that cannot be located give the same result for the same
    index, with the same log record. *)
Theorem upload_cv_same_error (CV : string) (index : Z)
    (w : World) (b : B) (el : Node) (b1 : B)
    (w' : World) (b' : B) (el' upload : Node) (b1' b2' : B) :
  get_dom_element_by_index index b = (Returns (Some el), b1) →
  get_file_upload_element el = None →
  get_dom_element_by_index index b' = (Returns (Some el'), b1') →
  get_file_upload_element el' = Some upload →
  get_locate_element upload b1' = (Returns None, b2') →
  (upload_cv CV index (w, b)).1 = (upload_cv CV index (w', b')).1
  ∧ (upload_cv CV index (w', b')).1
    = Returns {| extracted_content := None;
                 error := Some ("No file upload element found at index " +:+ pretty index);
                 include_in_memory := false |}
  ∧ log (upload_cv CV index (w, b)).2.1
    = (log w ++ [(LvInfo, "No file upload element found at index " +:+ pretty index)])%list
  ∧ log (upload_cv CV index (w', b')).2.1
    = (log w' ++ [(LvInfo, "No file upload element found at index " +:+ pretty index)])%list.
Proof.
  intros H1 H2 H1' H2' H3'. unfold upload_cv. run.
  rewrite H1, H1'. simpl. rewrite H2, H2'. simpl. by rewrite H3'.
Qed.

End BrowserClaims.

(** The error messages of [upload_cv] determine the index they name. *)
Lemma no_element_msg_inj (i j : Z) : no_element_msg i = no_element_msg j → i = j.
Proof.
  unfold no_element_msg. intros H%(inj (String.app _)). by apply (inj pretty).
Qed.

Lemma no_upload_element_msg_inj (i j : Z) :
  no_upload_element_msg i = no_upload_element_msg j → i = j.
Proof.
  unfold no_upload_element_msg. intros H%(inj (String.app _)). by apply (inj pretty).
Qed.

Lemma upload_failure_msg_inj (i j : Z) :
  upload_failure_msg i = upload_failure_msg j → i = j.
Proof.
  unfold upload_failure_msg. intros H%(inj (String.app _)). by apply (inj pretty).
Qed.

(** ** The actions on the scripted browser *)

(** The login action when the n-th browser call times out, for each of
    the eight calls, and when none does. *)
Example login_fails_at_each_call :
  Forall (λ n,
    (linkedin_login "jane@example.org" "hunter2" (world0, mkToy n ∅ true)).1
    = Returns (result_error "Failed to login to LinkedIn: Timeout 30000ms exceeded."))
    (seq 0 8).
Proof. repeat constructor. Qed.

Example login_succeeds :
  (linkedin_login "jane@example.org" "hunter2" (world0, mkToy 8 ∅ true)).1
  = Returns (result_content "Successfully logged in to LinkedIn" true).
Proof. reflexivity. Qed.

(** C6, as stated, fails when a browser call is interrupted by the
    cancellation of the task: the fourth call raises [CancelledError]
    and the action returns no error result. *)
Lemma login_lets_cancellation_through :
  ¬ login_reports_every_exception "jane@example.org" "hunter2" world0
      (mkInterrupted 3).
Proof.
  intros H.
  specialize (H cancelled_error (mkInterrupted 0) eq_refl). discriminate H.
Qed.

Example login_interrupted :
  linkedin_login "jane@example.org" "hunter2" (world0, mkInterrupted 3)
  = (Raises cancelled_error, (world0, mkInterrupted 0)).
Proof. reflexivity. Qed.

(** C7, as stated, fails when the file assignment times out: the result
    is none of the three named ones. *)
Lemma upload_failure_is_a_fourth_result :
  ¬ upload_returns_one_of_three cv_path0 7 world0 (mkToy 2 {[ 7%Z := true ]} true).
Proof.
  assert ((upload_cv cv_path0 7 (world0, mkToy 2 {[ 7%Z := true ]} true)).1
          = Returns (result_error (upload_failure_msg 7))) as Hrun by reflexivity.
  unfold upload_returns_one_of_three. rewrite Hrun.
  intros [H|[H|H]]; vm_compute in H; discriminate H.
Qed.

Lemma upload_cv_outcomes_witness :
  (upload_cv cv_path0 7 (world0, mkToy 5 ∅ true)).1
  = Returns (result_error "No element found at index 7")
  ∧ (upload_cv cv_path0 7 (world0, mkToy 5 {[ 7%Z := false ]} true)).1
    = Returns (result_error "No file upload element found at index 7")
  ∧ (upload_cv cv_path0 7 (world0, mkToy 5 {[ 7%Z := true ]} true)).1
    = Returns (result_content (upload_success_msg cv_path0 7) false).
Proof.
  split; [|split].
  - destruct (upload_cv_outcomes cv_path0 7 world0 (mkToy 5 ∅ true)) as (H & _).
    by rewrite (H (mkToy 4 ∅ true) eq_refl).
  - destruct (upload_cv_outcomes cv_path0 7 world0 (mkToy 5 {[ 7%Z := false ]} true))
      as (_ & H & _).
    by rewrite (H false (mkToy 4 {[ 7%Z := false ]} true) eq_refl eq_refl).
  - destruct (upload_cv_outcomes cv_path0 7 world0 (mkToy 5 {[ 7%Z := true ]} true))
      as (_ & _ & H & _).
    by rewrite (H true true () (mkToy 4 {[ 7%Z := true ]} true)
                  (mkToy 3 {[ 7%Z := true ]} true) (mkToy 2 {[ 7%Z := true ]} true)
                  eq_refl eq_refl eq_refl eq_refl).
Defined.

(** C8, as stated, fails when the file assignment is interrupted by the
    cancellation of the task: no upload-failure error is returned. *)
Lemma upload_lets_cancellation_through :
  ¬ upload_reports_every_exception cv_path0 7 world0 (mkInterrupted 2).
Proof.
  intros H.
  specialize (H () () () (mkInterrupted 1) (mkInterrupted 0) (mkInterrupted 0)
                cancelled_error eq_refl eq_refl eq_refl eq_refl).
  discriminate H.
Qed.

Lemma upload_cv_assignment_failure_witness :
  ((upload_cv cv_path0 7 (world0, mkToy 2 {[ 7%Z := true ]} true)).1
   = Returns (result_error "Failed to upload file to index 7")
   ∧ log (upload_cv cv_path0 7 (world0, mkToy 2 {[ 7%Z := true ]} true)).2.1
     = [(LvDebug, "Error in set_input_files: Timeout 30000ms exceeded.")]
   ∧ (upload_cv cv_path0 7 (world0, mkToy 2 {[ 7%Z := true ]} true)).2.2
     = mkToy 0 {[ 7%Z := true ]} true)
  ∧ ((upload_cv cv_path0 7 (world0, mkInterrupted 2)).1 = Raises cancelled_error
     ∧ log (upload_cv cv_path0 7 (world0, mkInterrupted 2)).2.1 = []
     ∧ (upload_cv cv_path0 7 (world0, mkInterrupted 2)).2.2 = mkInterrupted 0).
Proof.
  split.
  - apply (upload_cv_assignment_failure cv_path0 7 world0
             (mkToy 2 {[ 7%Z := true ]} true)
             true true () (mkToy 1 {[ 7%Z := true ]} true)
             (mkToy 0 {[ 7%Z := true ]} true) (mkToy 0 {[ 7%Z := true ]} true)
             toy_timeout);
      reflexivity.
  - apply (upload_cv_assignment_failure cv_path0 7 world0 (mkInterrupted 2)
             () () () (mkInterrupted 1) (mkInterrupted 0) (mkInterrupted 0)
             cancelled_error);
      reflexivity.
Defined.

Lemma upload_cv_same_error_witness :
  (upload_cv cv_path0 7 (world0, mkToy 5 {[ 7%Z := false ]} true)).1
  = (upload_cv cv_path0 7 (world0, mkToy 5 {[ 7%Z := true ]} false)).1.
Proof.
  apply (upload_cv_same_error cv_path0 7
           world0 (mkToy 5 {[ 7%Z := false ]} true) false (mkToy 4 {[ 7%Z := false ]} true)
           world0 (mkToy 5 {[ 7%Z := true ]} false) true true
           (mkToy 4 {[ 7%Z := true ]} false) (mkToy 3 {[ 7%Z := true ]} false));
    reflexivity.
Defined.

(** ** Credentials and start-up *)

Lemma get_linkedin_credentials_raises (w : World) :
  truthy (environ w !! "linkedin_email") = false
  ∨ truthy (environ w !! "linkedin_password") = false →
  get_linkedin_credentials w = (Raises (ValueError credentials_error), w).
Proof.
  unfold get_linkedin_credentials, getenv, gets, raise, mbind, M_bind. simpl.
  intros [-> | ->]; [done|]. by rewrite orb_true_r.
Qed.

Lemma get_linkedin_credentials_returns (w : World) (email password : string) :
  environ w !! "linkedin_email" = Some email → email ≠ "" →
  environ w !! "linkedin_password" = Some password → password ≠ "" →
  get_linkedin_credentials w = (Returns (email, mkSecretStr password), w).
Proof.
  unfold get_linkedin_credentials, getenv, gets, raise, mbind, M_bind. simpl.
  intros -> He -> Hp. by destruct email, password.
Qed.

(** The script reaches the start of the agents when the resume exists
    and the API key of the model is set; the LinkedIn credentials play
    no part: the credential loader is defined and never called. *)
Lemma script_runs (w : World) :
  is_Some (cv_file w) →
  is_Some ((environ w ∪ dotenv w) !! "OPENAI_API_KEY") →
  ∃ w', script w = (Returns (), w')
        ∧ events w'
          = (events w ++ [EvController] ++ (EvAction <$> action_descriptions)
             ++ [EvBrowser true; EvChatModel "gpt-4o"]
             ++ (EvAgent <$> tasks) ++ [EvRunAgents 2])%list.
Proof.
  intros [pages Hcv] [key Hkey]. eexists.
  unfold script, module_body, main, chat_openai, getenv, load_dotenv, emit,
    modify, gets, raise, mbind, M_bind, mret, M_ret.
  simpl. rewrite Hcv. simpl. rewrite Hkey. simpl. split; [reflexivity|].
  simpl. by rewrite <- !List.app_assoc.
Qed.

Lemma script_without_api_key (w : World) :
  is_Some (cv_file w) →
  (environ w ∪ dotenv w) !! "OPENAI_API_KEY" = None →
  ∃ msg w', script w = (Raises (OtherException msg), w')
            ∧ events w'
              = (events w ++ [EvController] ++ (EvAction <$> action_descriptions)
                 ++ [EvBrowser true])%list.
Proof.
  intros [pages Hcv] Hkey. do 2 eexists.
  unfold script, module_body, main, chat_openai, getenv, load_dotenv, emit,
    modify, gets, raise, mbind, M_bind, mret, M_ret.
  simpl. rewrite Hcv. simpl. rewrite Hkey. simpl. split; [reflexivity|].
  simpl. by rewrite <- !List.app_assoc.
Qed.

(** C1 (the code departs from the claim): in an environment that holds
    neither credential, with the resume in place, the credential loader
    would raise its configuration error, but the script does not call
    it: the controller, the browser and the model are built and both
    agents are run. *)
Theorem script_starts_without_credentials :
  environ world0 !! "linkedin_email" = None
  ∧ environ world0 !! "linkedin_password" = None
  ∧ (get_linkedin_credentials world0).1 = Raises (ValueError credentials_error)
  ∧ (script world0).1 = Returns ()
  ∧ events (script world0).2
    = ([EvController] ++ (EvAction <$> action_descriptions)
       ++ [EvBrowser true; EvChatModel "gpt-4o";
           EvAgent (ground_task +:+ String LF "" +:+ "data analyst intern");
           EvAgent (ground_task +:+ String LF "" +:+ "data scientist intern");
           EvRunAgents 2])%list.
Proof. repeat split; vm_compute; reflexivity. Qed.

(** * Further properties of the script *)

(** ** Credentials and start-up *)

Lemma truthy_false (v : option string) :
  truthy v = false ↔ v = None ∨ v = Some "".
Proof.
  destruct v as [[|c s]|]; simpl; split; try done; auto.
  - intros [H|H]; discriminate H.
Qed.

(** X1: [get_linkedin_credentials] raises its [ValueError] exactly when
    one of the two variables is unset or empty; when both are set and not
    empty it returns the email as it is and the password wrapped in a
    [SecretStr] whose secret value is the variable's value; it never
    changes the process state. *)
Theorem credentials_loader_outcome (w : World) :
  ((get_linkedin_credentials w).1 = Raises (ValueError credentials_error)
   ↔ (environ w !! "linkedin_email" = None ∨ environ w !! "linkedin_email" = Some "")
     ∨ (environ w !! "linkedin_password" = None
        ∨ environ w !! "linkedin_password" = Some ""))
  ∧ (∀ email password,
       environ w !! "linkedin_email" = Some email → email ≠ "" →
       environ w !! "linkedin_password" = Some password → password ≠ "" →
       ∃ secret : SecretStr,
         (get_linkedin_credentials w).1 = Returns (email, secret)
         ∧ get_secret_value secret = password)
  ∧ (get_linkedin_credentials w).2 = w.
Proof.
  split; [|split].
  - rewrite <- !truthy_false. split.
    + unfold get_linkedin_credentials, getenv, gets, raise, mbind, M_bind. simpl.
      destruct (truthy (environ w !! "linkedin_email")); [|by left].
      destruct (truthy (environ w !! "linkedin_password")); [|by right].
      discriminate.
    + intros H. by rewrite (get_linkedin_credentials_raises w H).
  - intros email password He Hne Hp Hnp. exists (mkSecretStr password).
    by rewrite (get_linkedin_credentials_returns w email password).
  - unfold get_linkedin_credentials, getenv, gets, raise, mbind, M_bind. simpl.
    by destruct (negb _ || negb _).
Qed.

Lemma credentials_loader_outcome_witness :
  (get_linkedin_credentials world0).1 = Raises (ValueError credentials_error)
  ∧ ∃ secret : SecretStr,
      (get_linkedin_credentials world_credentials).1
      = Returns ("jane@example.org", secret)
      ∧ get_secret_value secret = "hunter2".
Proof.
  split.
  - apply (proj1 (credentials_loader_outcome world0)). left. left. reflexivity.
  - apply (proj1 (proj2 (credentials_loader_outcome world_credentials)));
      [reflexivity|discriminate|reflexivity|discriminate].
Defined.

(** X2: when the resume does not exist the module stops with
    [FileNotFoundError] naming the path [Path.cwd() / CV_NAME]; by then
    the controller exists, but no action is registered, no browser or
    model is built and no agent is created or run. *)
Theorem script_without_resume (w : World) :
  cv_file w = None →
  (script w).1
  = Raises (FileNotFoundError
      ("You need to set the path to your cv file in the CV variable. CV file not found at "
       +:+ path_join (cwd w) CV_NAME))
  ∧ events (script w).2 = (events w ++ [EvController])%list
  ∧ log (script w).2 = log w
  ∧ jobs_csv (script w).2 = jobs_csv w.
Proof.
  intros Hcv.
  unfold script, module_body, load_dotenv, emit, modify, gets, raise, mbind, M_bind.
  simpl. by rewrite Hcv.
Qed.

Lemma script_without_resume_witness :
  events (script world_no_cv).2 = [EvController].
Proof.
  apply (proj1 (proj2 (script_without_resume world_no_cv eq_refl))).
Defined.

Lemma build_agents_events (ts : list string) : ∀ w : World,
  build_agents ts w
  = (Returns ts,
     mkWorld (environ w) (dotenv w) (cwd w) (cv_file w) (jobs_csv w) (log w)
             (events w ++ (EvAgent <$> ts))).
Proof.
  induction ts as [|t ts IH]; intros w.
  - simpl. rewrite List.app_nil_r. by destruct w.
  - simpl. unfold emit, modify, mbind, M_bind, mret, M_ret in *. simpl.
    rewrite IH. simpl. by rewrite <- List.app_assoc.
Qed.

(** X3: when the resume exists the script builds the controller,
    registers the five actions and builds the browser with security
    disabled.  If [OPENAI_API_KEY] is set neither in the environment nor
    in the [.env] file, it then stops with the error of the model's
    constructor, before any agent is created; otherwise it builds the
    model, creates one agent per task in the order of the task list and
    starts the two agents. *)
Theorem script_with_resume (w : World) :
  is_Some (cv_file w) →
  match (environ w ∪ dotenv w) !! "OPENAI_API_KEY" with
  | None =>
      (∃ msg, (script w).1 = Raises (OtherException msg))
      ∧ events (script w).2
        = (events w ++ [EvController] ++ (EvAction <$> action_descriptions)
           ++ [EvBrowser true])%list
  | Some _ =>
      events (script w).2
      = (events w ++ [EvController] ++ (EvAction <$> action_descriptions)
         ++ [EvBrowser true; EvChatModel "gpt-4o"]
         ++ (EvAgent <$> tasks) ++ [EvRunAgents (length tasks)])%list
  end.
Proof.
  intros Hcv. destruct ((environ w ∪ dotenv w) !! "OPENAI_API_KEY") as [key|] eqn:Hkey.
  - destruct (script_runs w Hcv) as (w' & -> & Hev); [by rewrite Hkey|].
    simpl. by rewrite Hev.
  - destruct (script_without_api_key w Hcv Hkey) as (msg & w' & -> & Hev).
    simpl. split; [by exists msg|done].
Qed.

Lemma script_with_resume_witness :
  events (script world_credentials).2
  = ([EvController] ++ (EvAction <$> action_descriptions)
     ++ [EvBrowser true; EvChatModel "gpt-4o"]
     ++ (EvAgent <$> tasks) ++ [EvRunAgents 2])%list
  ∧ events (script (set_environ (λ _, ∅) world0)).2
    = ([EvController] ++ (EvAction <$> action_descriptions) ++ [EvBrowser true])%list.
Proof.
  split.
  - apply (script_with_resume world_credentials (ex_intro _ _ eq_refl)).
  - pose proof (script_with_resume (set_environ (λ _, ∅) world0)
                  (ex_intro _ _ eq_refl)) as H.
    vm_compute in H. destruct H as [_ H]. exact H.
Defined.

(** ** The job record store over a run of saves *)

Lemma save_all_cons (job : Job) (jobs : list Job) (w : World) :
  save_all (job :: jobs) w = save_all jobs (save_jobs job w).2.
Proof. reflexivity. Qed.

Lemma save_all_frame (jobs : list Job) : ∀ w : World,
  environ (save_all jobs w) = environ w
  ∧ dotenv (save_all jobs w) = dotenv w
  ∧ cv_file (save_all jobs w) = cv_file w
  ∧ log (save_all jobs w) = log w
  ∧ events (save_all jobs w) = events w.
Proof.
  induction jobs as [|job jobs IH]; intros w; [done|].
  rewrite save_all_cons. destruct (IH (save_jobs job w).2) as (-> & -> & -> & -> & ->).
  done.
Qed.

Lemma translate_rows_text (jobs : list Job) : ∀ pending : bool,
  translate_newlines pending (rows_text jobs) = read_rows_text jobs.
Proof.
  induction jobs as [|job jobs IH]; intros pending; [done|].
  simpl rows_text. simpl read_rows_text.
  rewrite translate_app.
  - by rewrite read_row_eq, IH.
  - destruct jobs as [|job' jobs]; [done|]. apply starts_lf_writerow.
Qed.

Lemma csv_rows_read_rows_text (jobs : list Job) :
  csv_rows (read_rows_text jobs)
  = (λ job, universal_newlines <$> job_fields job) <$> jobs.
Proof.
  unfold csv_rows. induction jobs as [|job jobs IH]; [done|].
  simpl read_rows_text. unfold read_row. rewrite app_assoc.
  rewrite go_record; [|done|done|apply line_end_lf].
  by rewrite IH.
Qed.

Lemma no_cr_fields_fixed (fields : list string) :
  Forall (λ f, has_cr f = false) fields → universal_newlines <$> fields = fields.
Proof.
  induction 1 as [|f fields Hf _ IH]; [done|].
  by rewrite fmap_cons, universal_newlines_no_cr, IH.
Qed.

Lemma translate_no_cr (s : string) : ∀ pending : bool,
  has_cr (translate_newlines pending s) = false.
Proof.
  induction s as [|c s IH]; intros pending; [done|].
  simpl. destruct (Ascii.eqb c CR) eqn:Hc; [by simpl; rewrite IH|].
  destruct (Ascii.eqb c LF && pending); [done|].
  simpl. by rewrite Hc, IH.
Qed.

(** X4: starting from an absent store, after any run of [save_jobs]
    calls the file holds one row per call, in the order of the calls,
    each with the five columns of its job; nothing is merged or dropped,
    so a job saved twice has two rows. *)
Theorem saved_jobs_are_rows_in_order (jobs : list Job) (w : World) :
  jobs_csv w = None → jobs ≠ [] →
  ∃ text, jobs_csv (save_all jobs w) = Some text
          ∧ csv_rows text = job_fields <$> jobs
          ∧ length (csv_rows text) = length jobs.
Proof.
  intros Hw Hne. exists (rows_text jobs).
  rewrite save_all_store, Hw, csv_rows_rows_text by done.
  by rewrite length_fmap.
Qed.

Lemma saved_jobs_are_rows_in_order_witness :
  ∃ text, jobs_csv (save_all [job_a; job_a; job_cr] world0) = Some text
          ∧ csv_rows text = [job_fields job_a; job_fields job_a; job_fields job_cr]
          ∧ length (csv_rows text) = 3.
Proof.
  apply (saved_jobs_are_rows_in_order [job_a; job_a; job_cr] world0);
    [reflexivity|discriminate].
Defined.

(** X5: the store is append-only under [save_jobs]: after any run of
    calls the text that was in the file is still there, unchanged, at the
    start of the file, followed by the written rows; the environment,
    the resume, the log and the components are untouched. *)
Theorem save_jobs_is_append_only (jobs : list Job) (w : World) (text : string) :
  jobs_csv w = Some text →
  jobs_csv (save_all jobs w) = Some (text +:+ rows_text jobs)
  ∧ environ (save_all jobs w) = environ w
  ∧ cv_file (save_all jobs w) = cv_file w
  ∧ log (save_all jobs w) = log w
  ∧ events (save_all jobs w) = events w.
Proof.
  intros Hw. split.
  - destruct jobs as [|job jobs].
    + simpl. by rewrite app_nil_r.
    + by rewrite save_all_store, Hw.
  - destruct (save_all_frame jobs w) as (? & ? & ? & ? & ?). done.
Qed.

Lemma save_jobs_is_append_only_witness :
  jobs_csv (save_all [job_b] (save_jobs job_a world0).2)
  = Some (writerow (job_row job_a) +:+ rows_text [job_b]).
Proof.
  apply (proj1 (save_jobs_is_append_only [job_b] (save_jobs job_a world0).2
                  (writerow (job_row job_a)) eq_refl)).
Defined.

(** X6: starting from an absent store, after any run of [save_jobs]
    calls [read_jobs] returns one line-feed-terminated row per call, in
    the order of the calls; each row holds the five columns of its job
    with carriage returns read as line feeds. *)
Theorem read_jobs_after_saves (jobs : list Job) (w : World) :
  jobs_csv w = None → jobs ≠ [] →
  (read_jobs (save_all jobs w)).1 = Returns (read_rows_text jobs)
  ∧ csv_rows (read_rows_text jobs)
    = (λ job, universal_newlines <$> job_fields job) <$> jobs.
Proof.
  intros Hw Hne. split; [|apply csv_rows_read_rows_text].
  assert (jobs_csv (save_all jobs w) = Some (rows_text jobs)) as Hstore
    by by rewrite save_all_store, Hw.
  rewrite (read_jobs_eq _ _ Hstore (utf8_valid_rows_text jobs)).
    simpl. f_equal. apply translate_rows_text.
Qed.

Lemma read_jobs_after_saves_witness :
  (read_jobs (save_all [job_a; job_cr; job_b] world0)).1
  = Returns (read_rows_text [job_a; job_cr; job_b]).
Proof.
  apply (proj1 (read_jobs_after_saves [job_a; job_cr; job_b] world0 eq_refl
                  ltac:(discriminate))).
Defined.

(** X7: the round trip is exact on jobs without a carriage return: from
    an absent store, saving the jobs and reading the store gives a text
    whose rows are the five fields of each job, unchanged and in order. *)
Theorem save_then_read_round_trip (jobs : list Job) (w : World) :
  Forall (λ job, Forall (λ f, has_cr f = false) (job_fields job)) jobs →
  jobs_csv w = None → jobs ≠ [] →
  ∃ text, (read_jobs (save_all jobs w)).1 = Returns text
          ∧ csv_rows text = job_fields <$> jobs.
Proof.
  intros Hcr Hw Hne. exists (read_rows_text jobs). split.
  - assert (jobs_csv (save_all jobs w) = Some (rows_text jobs)) as Hstore
      by by rewrite save_all_store, Hw.
    rewrite (read_jobs_eq _ _ Hstore (utf8_valid_rows_text jobs)).
    simpl. f_equal. apply translate_rows_text.
  - rewrite csv_rows_read_rows_text.
    induction Hcr as [|job jobs' Hjob _ IH]; [done|].
    rewrite !fmap_cons, no_cr_fields_fixed by done.
    destruct jobs' as [|job' jobs'']; [done|]. by rewrite IH.
Qed.

Lemma save_then_read_round_trip_witness :
  ∃ text, (read_jobs (save_all [job_a; job_b] world0)).1 = Returns text
          ∧ csv_rows text = [job_fields job_a; job_fields job_b].
Proof.
  apply (save_then_read_round_trip [job_a; job_b] world0);
    [repeat constructor|reflexivity|discriminate].
Defined.

(** X8: whatever the store holds, the text [read_jobs] returns has no
    carriage return, and reading leaves the store as it was. *)
Theorem read_jobs_has_no_cr (w w' : World) (text : string) :
  read_jobs w = (Returns text, w') → has_cr text = false ∧ w' = w.
Proof.
  unfold read_jobs, gets, raise, mbind, M_bind, mret, M_ret. simpl.
  destruct (jobs_csv w) as [stored|]; [|discriminate].
  destruct (utf8_valid stored); [|discriminate].
  intros [= <- <-]. split; [apply translate_no_cr|done].
Qed.

Lemma read_jobs_has_no_cr_witness :
  has_cr (default "" (jobs_csv (save_jobs job_cr world0).2)) = true
  ∧ has_cr (read_row job_cr) = false.
Proof.
  split; [reflexivity|].
  apply (proj1 (read_jobs_has_no_cr (save_jobs job_cr world0).2
                  (save_jobs job_cr world0).2 (read_row job_cr) eq_refl)).
Defined.

(** X9: the row [save_jobs] writes determines the five stored fields:
    two jobs with the same row agree on title, company, link, salary and
    location (an absent value and an empty one being the same field). *)
Theorem written_row_determines_fields (a b : Job) :
  writerow (job_row a) = writerow (job_row b) → job_fields a = job_fields b.
Proof.
  intros H. pose proof (writerow_holds a) as Ha. pose proof (writerow_holds b) as Hb.
  unfold row_holds in Ha, Hb. rewrite H, Hb in Ha. congruence.
Qed.

Lemma written_row_determines_fields_witness :
  job_fields job_a = job_fields (set_fit_score (S754_infinity false) job_a).
Proof.
  apply (written_row_determines_fields job_a (set_fit_score (S754_infinity false) job_a)).
  reflexivity.
Defined.

(** ** The resume reader on a page that fails *)

(** X10: when the extraction of a page raises, [read_cv] ends with that
    exception, whatever its class: no result is returned, nothing is
    logged, and the text of the pages before it is lost. *)
Theorem read_cv_page_failure (CV : string) (w : World)
    (before : list Page) (page : Page) (after : list Page)
    (texts : list (option string)) (e : pyexc) :
  cv_file w = Some (before ++ page :: after)%list →
  extract_text <$> before = Returns <$> texts →
  extract_text page = Raises e →
  read_cv CV w = (Raises e, w).
Proof.
  intros Hcv Hbefore Hpage.
  unfold read_cv, gets, of_outcome, mbind, M_bind. rewrite Hcv.
  by rewrite (read_pages_raises before page after texts "" e).
Qed.

Lemma read_cv_page_failure_witness :
  read_cv cv_path0 world_bad_page
  = (Raises (OtherException "cannot decode page"), world_bad_page).
Proof.
  apply (read_cv_page_failure cv_path0 world_bad_page
           [ {| extract_text := Returns (Some "Jane Doe") |} ]
           {| extract_text := Raises (OtherException "cannot decode page") |}
           [ {| extract_text := Returns (Some " Data analyst") |} ]
           [Some "Jane Doe"]);
    reflexivity.
Defined.

(** ** The browser actions on every browser *)

Ltac run_action :=
  unfold try_except, on_snd, on_fst, logger_info, logger_error, logger_debug,
    modify, gets, raise, mbind, M_bind, mret, M_ret; simpl.

Ltac by_cases m :=
  destruct m as [[?|?] ?] eqn:?; simpl;
  repeat match goal with
  | x : () |- _ => destruct x
  | x : option _ |- _ => destruct x; simpl
  end.

Ltac browser_call :=
  match goal with
  | |- context [goto ?u ?s] => is_var s; by_cases (goto u s)
  | |- context [wait_for_selector ?u ?s] => is_var s; by_cases (wait_for_selector u s)
  | |- context [fill ?h ?t ?s] => is_var s; by_cases (fill h t s)
  | |- context [click ?h ?s] => is_var s; by_cases (click h s)
  | |- context [wait_for_navigation ?s] => is_var s; by_cases (wait_for_navigation s)
  | |- context [get_dom_element_by_index ?i ?s] =>
      is_var s; by_cases (get_dom_element_by_index i s)
  | |- context [get_file_upload_element ?n] =>
      is_var n; destruct (get_file_upload_element n) eqn:?; simpl
  | |- context [get_locate_element ?n ?s] =>
      is_var s; by_cases (get_locate_element n s)
  | |- context [set_input_files ?h ?p ?s] =>
      is_var s; by_cases (set_input_files h p s)
  | |- context [is_Exception ?e] => destruct (is_Exception e) eqn:?; simpl
  end.

Section BrowserProperties.
Context {B Node Handle : Type} `{!BrowserContext B Node Handle}.

(** X11: on every browser [linkedin_login] lets no [Exception] out, and
    whenever it returns it has added exactly one log record carrying the
    message of the result: the success message at info level with the
    memory flag true, or the error message at error level with the
    memory flag false. *)
Theorem linkedin_login_result (email password : string) (w : World) (b : B) :
  match linkedin_login email password (w, b) with
  | (Returns r, (w', _)) =>
      (r = result_content login_success_msg true
       ∧ w' = add_log LvInfo login_success_msg w)
      ∨ (∃ e, is_Exception e = true
              ∧ r = result_error (login_error_msg e)
              ∧ w' = add_log LvError (login_error_msg e) w)
  | (Raises e, (w', _)) => is_Exception e = false ∧ w' = w
  end.
Proof.
  unfold linkedin_login, call_fill, call_click. run_action.
  repeat browser_call;
    first [ by left
          | by split
          | right; eexists; split; [|split; reflexivity];
            first [eassumption | reflexivity] ].
Qed.

(** X12: when the navigation to the login page raises an exception, the
    action stops there: the result and the state of the browser are the
    same for every email and password, and the browser is left as the
    failed navigation left it. *)
Theorem linkedin_login_navigation_failure (email password : string)
    (w : World) (b b1 : B) (e : pyexc) :
  goto login_url b = (Raises e, b1) → is_Exception e = true →
  linkedin_login email password (w, b)
  = (Returns (result_error (login_error_msg e)),
     (add_log LvError (login_error_msg e) w, b1)).
Proof.
  intros Hgoto He. unfold linkedin_login. run_action. by rewrite Hgoto, He.
Qed.

(** X13: an exception raised when the element is looked up by index, or
    when the upload control is located, is not handled by [upload_cv]:
    it leaves the action, [Exception] or not, and nothing is logged. *)
Theorem upload_cv_lookup_failure (CV : string) (index : Z) (w : World) (b : B)
    (e : pyexc) :
  (∀ b1,
     get_dom_element_by_index index b = (Raises e, b1) →
     upload_cv CV index (w, b) = (Raises e, (w, b1)))
  ∧ (∀ el upload b1 b2,
       get_dom_element_by_index index b = (Returns (Some el), b1) →
       get_file_upload_element el = Some upload →
       get_locate_element upload b1 = (Raises e, b2) →
       upload_cv CV index (w, b) = (Raises e, (w, b2))).
Proof.
  split.
  - intros b1 H1. unfold upload_cv. run_action. by rewrite H1.
  - intros el upload b1 b2 H1 H2 H3. unfold upload_cv. run_action.
    rewrite H1. simpl. rewrite H2. simpl. by rewrite H3.
Qed.

(** X14: whenever [upload_cv] returns, its result is one of four: the
    no-element error, the no-upload-element error, the upload-failure
    error, all three for the requested index, or the success message
    for the resume path and the index.  None of them is flagged for the
    agent's memory, and at most one log record is added. *)
Theorem upload_cv_result (CV : string) (index : Z) (w : World) (b : B) :
  match upload_cv CV index (w, b) with
  | (Returns r, (w', _)) =>
      (r = result_error (no_element_msg index) ∧ w' = w
       ∨ r = result_error (no_upload_element_msg index)
         ∧ w' = add_log LvInfo (no_upload_element_msg index) w
       ∨ (∃ e, is_Exception e = true
               ∧ r = result_error (upload_failure_msg index)
               ∧ w' = add_log LvDebug ("Error in set_input_files: " +:+ str_exc e) w)
       ∨ r = result_content (upload_success_msg CV index) false
         ∧ w' = add_log LvInfo (upload_success_msg CV index) w)
      ∧ include_in_memory r = false
  | (Raises e, (w', _)) => w' = w
  end.
Proof.
  unfold upload_cv. run_action.
  repeat browser_call; try done; (split; [|done]);
    first [ by left
          | by right; left
          | by right; right; right
          | right; right; left; eexists; split; [|split; reflexivity];
            eassumption ].
Qed.

End BrowserProperties.

Lemma linkedin_login_navigation_failure_witness :
  linkedin_login "jane@example.org" "hunter2" (world0, mkToy 0 ∅ true)
  = (Returns (result_error "Failed to login to LinkedIn: Timeout 30000ms exceeded."),
     (add_log LvError "Failed to login to LinkedIn: Timeout 30000ms exceeded." world0,
      mkToy 0 ∅ true)).
Proof.
  apply (linkedin_login_navigation_failure "jane@example.org" "hunter2"
           world0 (mkToy 0 ∅ true) (mkToy 0 ∅ true) toy_timeout);
    reflexivity.
Defined.

Lemma upload_cv_lookup_failure_witness :
  upload_cv cv_path0 7 (world0, mkToy 0 {[ 7%Z := true ]} true)
  = (Raises toy_timeout, (world0, mkToy 0 {[ 7%Z := true ]} true))
  ∧ upload_cv cv_path0 7 (world0, mkToy 1 {[ 7%Z := true ]} true)
    = (Raises toy_timeout, (world0, mkToy 0 {[ 7%Z := true ]} true)).
Proof.
  split.
  - apply (proj1 (upload_cv_lookup_failure cv_path0 7 world0
                    (mkToy 0 {[ 7%Z := true ]} true) toy_timeout)).
    reflexivity.
  - apply (proj2 (upload_cv_lookup_failure cv_path0 7 world0
                    (mkToy 1 {[ 7%Z := true ]} true) toy_timeout)
             true true (mkToy 0 {[ 7%Z := true ]} true));
      reflexivity.
Defined.

(** ** The browser actions on the recording browser *)

(** X15: on a browser where every call succeeds, [linkedin_login] makes
    exactly eight calls, in this order: the navigation to the login
    page, then for the username field a lookup and a fill with the
    email, for the password field a lookup and a fill with the password,
    for the submit button a lookup and a click, and the wait for the
    navigation.  The one log record it adds is the success message, which
    holds neither the email nor the password. *)
Theorem linkedin_login_calls (email password : string) (w : World) (calls : list call) :
  linkedin_login email password (w, calls)
  = (Returns (result_content "Successfully logged in to LinkedIn" true),
     (add_log LvInfo "Successfully logged in to LinkedIn" w,
      (calls ++ [CallGoto "https://www.linkedin.com/login";
                 CallWaitForSelector "input#username";
                 CallFill (BySelector "input#username") email;
                 CallWaitForSelector "input#password";
                 CallFill (BySelector "input#password") password;
                 CallWaitForSelector submit_selector;
                 CallClick (BySelector submit_selector);
                 CallWaitForNavigation])%list)).
Proof.
  unfold linkedin_login, call_fill, call_click. run_action.
  unfold rec_find, record. run_action.
  by rewrite <- !List.app_assoc.
Qed.

(** X16: on a browser where every call succeeds, [upload_cv] looks up
    the element at the requested index, locates its upload control and
    assigns the resume path, once, to that control; it makes no other
    call. *)
Theorem upload_cv_calls (CV : string) (index : Z) (w : World) (calls : list call) :
  upload_cv CV index (w, calls)
  = (Returns (result_content (upload_success_msg CV index) false),
     (add_log LvInfo (upload_success_msg CV index) w,
      (calls ++ [CallGetDomElement index;
                 CallLocate index;
                 CallSetInputFiles (ByIndex index) CV])%list)).
Proof.
  unfold upload_cv. run_action.
  unfold rec_element, rec_locate, record. run_action.
  by rewrite <- !List.app_assoc.
Qed.

(** ** The messages of [upload_cv] *)

(** X17: each error message of [upload_cv] names one index only, and
    the three kinds of message never coincide, whatever the indices: the
    text of an error tells the kind of failure and the index. *)
Theorem upload_cv_messages (i j : Z) :
  (no_element_msg i = no_element_msg j ↔ i = j)
  ∧ (no_upload_element_msg i = no_upload_element_msg j ↔ i = j)
  ∧ (upload_failure_msg i = upload_failure_msg j ↔ i = j)
  ∧ no_element_msg i ≠ no_upload_element_msg j
  ∧ no_element_msg i ≠ upload_failure_msg j
  ∧ no_upload_element_msg i ≠ upload_failure_msg j.
Proof.
  repeat split; try (by intros ->).
  - apply no_element_msg_inj.
  - apply no_upload_element_msg_inj.
  - apply upload_failure_msg_inj.
  - intros H. apply (f_equal (String.get 3)) in H. lazy in H. discriminate.
  - intros H. apply (f_equal (String.get 0)) in H. lazy in H. discriminate.
  - intros H. apply (f_equal (String.get 0)) in H. lazy in H. discriminate.
Qed.
